(** * homebridge-lirc-tv: the LIRC command dispatcher ([src/lirc.ts])

    A shallow embedding of [LIRCController]: the token classification done
    by [sendCommand], the request it writes to the LIRC daemon, and the
    promise chain built by [sendCommands].

    The program runs on Node.js.  Three parts of the runtime are modelled
    next to the program, each from its documented behaviour:
      - the string built-ins [startsWith], [replace] and [parseInt]
        (ECMAScript);
      - timers ([setTimeout]) and a virtual clock in milliseconds;
      - sockets ([net.connect]), whose fate is chosen by an environment
        given as an oracle: what happens to the n-th socket opened.

    Every effect of the program (a log line, a socket operation, a timer
    being armed) is recorded in a trace together with the time at which it
    happens. *)

From Stdlib Require Import ZArith NArith Lia List Bool Ascii String.
From Stdlib Require Import DecimalString.
Import ListNotations.

Open Scope string_scope.
Open Scope list_scope.
Open Scope Z_scope.

(** ** JavaScript values *)

(** A JavaScript string is a sequence of code units; the model keeps the
    code units 0..255, which covers every ASCII token. *)
Definition code_unit (c : ascii) : Z := Z.of_nat (nat_of_ascii c).

(** The numbers that reach the dispatcher: [parseInt] returns [NaN] or an
    integer, and the configured delay is an integer count of milliseconds.
    (Integers above 2^53 are rounded by the runtime; the model keeps them
    exact.  They are above every timer duration, see [timer_ms].) *)
Inductive Number : Type :=
  | NaN
  | Num (z : Z).

Module JS.

(** [s.startsWith(p)] *)
Definition startsWith (s p : string) : bool := String.prefix p s.

Fixpoint drop (n : nat) (s : string) : string :=
  match n, s with
  | O, _ => s
  | S _, EmptyString => EmptyString
  | S n', String _ s' => drop n' s'
  end.

(** [s.replace(pat, rep)] with a string pattern: the first occurrence of
    [pat] only, [s] unchanged when there is none.  ([rep] has no [$]
    replacement pattern in this program.) *)
Fixpoint replace (s pat rep : string) : string :=
  if String.prefix pat s then (rep ++ drop (String.length pat) s)%string
  else match s with
       | EmptyString => EmptyString
       | String c s' => String c (replace s' pat rep)
       end.

(** White space skipped by [parseInt]: TAB, LF, VT, FF, CR, SP, NBSP. *)
Definition isWhiteSpace (c : ascii) : bool :=
  let n := code_unit c in
  ((9 <=? n) && (n <=? 13)) || (n =? 32) || (n =? 160).

Fixpoint trimStart (s : string) : string :=
  match s with
  | EmptyString => EmptyString
  | String c s' => if isWhiteSpace c then trimStart s' else s
  end.

(** The value of a digit in radix up to 36. *)
Definition digitValue (c : ascii) : option Z :=
  let n := code_unit c in
  if (48 <=? n) && (n <=? 57) then Some (n - 48)
  else if (97 <=? n) && (n <=? 122) then Some (n - 87)
  else if (65 <=? n) && (n <=? 90) then Some (n - 55)
  else None.

(** The longest prefix of radix-[R] digits, read as an integer; [acc] is
    [None] until a digit has been read. *)
Fixpoint digits (R : Z) (s : string) (acc : option Z) : option Z :=
  match s with
  | EmptyString => acc
  | String c s' =>
      match digitValue c with
      | Some d =>
          if d <? R
          then digits R s' (Some (R * match acc with Some a => a | None => 0 end + d))
          else acc
      | None => acc
      end
  end.

Definition hasHexPrefix (s : string) : bool :=
  String.prefix "0x" s || String.prefix "0X" s.

(** Sign handling of [parseInt]: after the white space. *)
Definition splitSign (s : string) : Z * string :=
  match s with
  | String "-" r => (-1, r)
  | String "+" r => (1, r)
  | _ => (1, s)
  end.

(** [parseInt(s, radix)], ECMAScript 19.2.5; [radix] after ToInt32, so
    that an absent radix is 0. *)
Definition parseInt_radix (s : string) (radix : Z) : Number :=
  let '(sign, rest) := splitSign (trimStart s) in
  if (radix =? 0) || (radix =? 16) then
    let R := if radix =? 0 then 10 else 16 in
    let '(R, rest) := if hasHexPrefix rest then (16, drop 2 rest) else (R, rest) in
    match digits R rest None with
    | None => NaN
    | Some v => Num (sign * v)
    end
  else if (radix <? 2) || (36 <? radix) then NaN
  else
    match digits radix rest None with
    | None => NaN
    | Some v => Num (sign * v)
    end.

(** [parseInt(s)], as the program calls it: no radix.  The integer read
    is kept as it is; the runtime rounds it to a double above 2^53. *)
Definition parseInt (s : string) : Number := parseInt_radix s 0.

End JS.

(** ** The runtime: errors, sockets, timers, the trace *)

(** The error object a socket hands to its ['error'] listeners. *)
Record Error : Type := mkError {
  message : string;
  code : string
}.

(** What the environment does with one socket after [net.connect]:
    - [Connects latency late]: the connect listener runs [latency] ms after
      the call; [late = Some (after, error)] adds an ['error'] event
      [after] ms after the connection was established;
    - [Fails latency error]: the ['error'] event comes instead of the
      connection, [latency] ms after the call;
    - [Hangs]: neither event ever comes (the program sets no timeout). *)
Inductive conn_outcome : Type :=
  | Connects (latency : N) (late : option (N * Error))
  | Fails (latency : N) (error : Error)
  | Hangs.

(** The environment: the fate of the n-th socket the process opens. *)
Definition network : Type := nat -> conn_outcome.

Inductive log_line : Type :=
  | Delaying (delayTimeout : Number)      (* `Delaying for ${delayTimeout}ms` *)
  | Sending (requestBody : string).       (* `Sending command to LIRC: ${requestBody}` *)

Inductive event : Type :=
  | Call (key : string)                             (* this.sendCommand(key, resolve, reject) *)
  | LogInfo (line : log_line)                       (* this.log.info(...) *)
  | LogError (msg : string)                         (* this.log.error(error.message) *)
  | SetTimeout (ms : Number)                        (* setTimeout(resolve, ms) *)
  | Connect (client : nat) (host : string) (port : Z)   (* net.connect({host, port}, ...) *)
  | Write (client : nat) (data : string)            (* client.write(data) *)
  | End_ (client : nat).                            (* client.end() *)

(** The state of the process: the clock, the number of sockets opened so
    far (the next socket's identity) and the trace, oldest event first.
    The events of one token are contiguous in the trace; each carries its
    own time. *)
Record world : Type := mkWorld {
  now : Z;
  sockets : nat;
  trace : list (Z * event)
}.

Definition initial_world : world := mkWorld 0 0 [].

Definition record (e : event) (w : world) : world :=
  mkWorld (now w) (sockets w) (trace w ++ [(now w, e)]).

(** An event that happens [after] ms from now, while the clock of the
    chain stays where it is. *)
Definition record_after (after : Z) (e : event) (w : world) : world :=
  mkWorld (now w) (sockets w) (trace w ++ [(now w + after, e)]).

Definition elapse (ms : Z) (w : world) : world :=
  mkWorld (now w + ms) (sockets w) (trace w).

Definition open_socket (w : world) : world :=
  mkWorld (now w) (S (sockets w)) (trace w).

(** Node.js timers: a delay that is [NaN], below 1 or above 2^31-1 is set
    to 1 ms. *)
Definition TIMEOUT_MAX : Z := 2147483647.

Definition timer_ms (ms : Number) : Z :=
  match ms with
  | NaN => 1
  | Num z => if (1 <=? z) && (z <=? TIMEOUT_MAX) then z else 1
  end.

(** [client.write(string)] sends the string in UTF-8. *)
Fixpoint utf8_bytes (s : string) : list Z :=
  match s with
  | EmptyString => []
  | String c s' =>
      let n := code_unit c in
      if n <? 128 then n :: utf8_bytes s'
      else (192 + n / 64) :: (128 + n mod 64) :: utf8_bytes s'
  end.

Definition is_ascii (s : string) : Prop :=
  Forall (fun c => code_unit c < 128) (list_ascii_of_string s).

(** ** Promises *)

(** How a promise ends: [Pending] is the promise that never settles. *)
Inductive settled : Type :=
  | Fulfilled
  | Rejected (reason : Error)
  | Pending.

(** A [Promise<void>] of the chain, run to its end from a state of the
    process. *)
Definition Promise : Type := world -> settled * world.

(** The two functions an executor receives. *)
Definition resolve : Promise := fun w => (Fulfilled, w).
Definition reject (reason : Error) : Promise := fun w => (Rejected reason, w).

(** [Promise.resolve()] *)
Definition Promise_resolve : Promise := resolve.

(** [new Promise(executor)] *)
Definition new_Promise (executor : Promise -> (Error -> Promise) -> Promise) : Promise :=
  executor resolve reject.

(** [p.then(onFulfilled)], with no rejection handler: a rejection passes
    through and [onFulfilled] is not called. *)
Definition then_ (p : Promise) (onFulfilled : unit -> Promise) : Promise :=
  fun w =>
    match p w with
    | (Fulfilled, w') => onFulfilled tt w'
    | (Rejected reason, w') => (Rejected reason, w')
    | (Pending, w') => (Pending, w')
    end.

(** [setTimeout(callback, ms)]: the timer is armed now and [callback] runs
    when it fires.  On the clock of the model a timer fires [timer_ms ms]
    after it is armed and the code itself takes no time; a gap measured on
    a wall clock can differ from it by a fraction of a millisecond. *)
Definition setTimeout (callback : Promise) (ms : Number) : Promise :=
  fun w => callback (elapse (timer_ms ms) (record (SetTimeout ms) w)).

(** ** The program: [src/lirc.ts] *)

Definition DELAY_INDENTIFIER : string := "DELAY|".

(** The two characters ["\r\n"]. *)
Definition CR : ascii := ascii_of_nat 13.
Definition LF : ascii := ascii_of_nat 10.
Definition CRLF : string := String CR (String LF "").

(** The private fields set by the constructor. *)
Record LIRCController : Type := mkLIRCController {
  host : string;
  port : Z;
  remote : string;
  delay : Z
}.

Section Controller.

Variable this : LIRCController.
Variable net : network.

(** [this.sendCommand], lines 27-57.  The socket's listeners are run in the
    order the environment delivers the socket's events.  When an ['error']
    event comes after the connection, the promise is settled by whichever
    comes first, the error or the timer armed by the connect listener (an
    error at the very moment the timer fires comes second); the later of
    the two calls a function of an already settled promise, which does
    nothing.  The configured port is taken to be one [net.connect]
    accepts (0 to 65535): for any other it throws before a socket exists,
    a case the model leaves out. *)
Definition sendCommand (key : string) (resolve : Promise)
    (reject : Error -> Promise) : Promise :=
  fun w =>
    if JS.startsWith key DELAY_INDENTIFIER then
      let delayTimeout := JS.parseInt (JS.replace key DELAY_INDENTIFIER "") in
      let w := record (LogInfo (Delaying delayTimeout)) w in
      setTimeout resolve delayTimeout w
    else
      let client := sockets w in
      let w := open_socket (record (Connect client (host this) (port this)) w) in
      let on_error (error : Error) (w : world) :=
        reject error (record (LogError (message error)) w) in
      match net client with
      | Hangs => (Pending, w)
      | Fails latency error => on_error error (elapse (Z.of_N latency) w)
      | Connects latency late =>
          let w := elapse (Z.of_N latency) w in
          let requestBody := ("SEND_ONCE " ++ remote this ++ " " ++ key)%string in
          let w := record (LogInfo (Sending requestBody)) w in
          let w := record (Write client (requestBody ++ CRLF)%string) w in
          let w := record (End_ client) w in
          let settle := Num (delay this) in
          match late with
          | None => setTimeout resolve settle w
          | Some (after, error) =>
              if Z.of_N after <? timer_ms settle then
                on_error error (elapse (Z.of_N after) (record (SetTimeout settle) w))
              else
                setTimeout
                  (fun w =>
                     resolve (record_after (Z.of_N after - timer_ms settle)
                                (LogError (message error)) w))
                  settle w
          end
      end.

(** The function passed to [collector.then], lines 12-15: a new promise
    whose executor calls [this.sendCommand]. *)
Definition onFulfilled (key : string) : Promise :=
  new_Promise (fun resolve reject =>
    fun w => sendCommand key resolve reject (record (Call key) w)).

(** The function given to [reduce], lines 10-17. *)
Definition reducer (collector : Promise) (key : string) : Promise :=
  then_ collector (fun _ => onFulfilled key).

(** [sendCommands], lines 9-18. *)
Definition sendCommands (keys : list string) : Promise :=
  fold_left reducer keys Promise_resolve.

End Controller.

(** ** Reading the trace *)

(** The events a run has added to the trace of the state it started in. *)
Definition added (w w' : world) : list (Z * event) :=
  skipn (List.length (trace w)) (trace w').

(** The tokens handed to [this.sendCommand], in trace order. *)
Fixpoint calls (tr : list (Z * event)) : list string :=
  match tr with
  | [] => []
  | (_, Call key) :: tr' => key :: calls tr'
  | _ :: tr' => calls tr'
  end.

Definition is_network (e : event) : bool :=
  match e with
  | Connect _ _ _ | Write _ _ | End_ _ => true
  | _ => false
  end.

(** The socket operations of a trace, in trace order. *)
Definition network_ops (tr : list (Z * event)) : list event :=
  filter is_network (map snd tr).

(** The durations of the timers armed, in trace order. *)
Fixpoint timers (tr : list (Z * event)) : list Number :=
  match tr with
  | [] => []
  | (_, SetTimeout ms) :: tr' => ms :: timers tr'
  | _ :: tr' => timers tr'
  end.

(** The requests written, with the socket each was written to. *)
Fixpoint writes (tr : list (Z * event)) : list (nat * string) :=
  match tr with
  | [] => []
  | (_, Write client data) :: tr' => (client, data) :: writes tr'
  | _ :: tr' => writes tr'
  end.

(** The sockets opened. *)
Fixpoint connections (tr : list (Z * event)) : list nat :=
  match tr with
  | [] => []
  | (_, Connect client _ _) :: tr' => client :: connections tr'
  | _ :: tr' => connections tr'
  end.

(** The error lines logged. *)
Fixpoint errors_logged (tr : list (Z * event)) : list string :=
  match tr with
  | [] => []
  | (_, LogError msg) :: tr' => msg :: errors_logged tr'
  | _ :: tr' => errors_logged tr'
  end.

(** An event by which a token begins something: the call itself, a socket
    being opened, a timer being armed. *)
Definition begins (e : event) : bool :=
  match e with
  | Call _ | Connect _ _ _ | SetTimeout _ => true
  | _ => false
  end.

(** The request line of the LIRC protocol for one key. *)
Definition request (this : LIRCController) (key : string) : string :=
  ("SEND_ONCE " ++ remote this ++ " " ++ key ++ CRLF)%string.

(** ** What the specification's words mean *)

Definition is_decimal_digit (c : ascii) : bool :=
  (48 <=? code_unit c) && (code_unit c <=? 57).

(** A base-10 integer, read the plain way: one decimal digit or more and
    nothing else; [acc] is the value of the digits already read. *)
Fixpoint decimal_digits (s : string) (acc : Z) : option Z :=
  match s with
  | EmptyString => Some acc
  | String c s' =>
      if is_decimal_digit c
      then decimal_digits s' (10 * acc + (code_unit c - 48))
      else None
  end.

Definition decimal_value (s : string) : option Z :=
  match s with
  | EmptyString => None
  | _ => decimal_digits s 0
  end.

(** A base-16 integer, read the plain way: one hexadecimal digit or more
    and nothing else. *)
Definition is_hex_digit (c : ascii) : bool :=
  is_decimal_digit c
  || ((97 <=? code_unit c) && (code_unit c <=? 102))
  || ((65 <=? code_unit c) && (code_unit c <=? 70)).

Definition hex_digit_value (c : ascii) : Z :=
  if is_decimal_digit c then code_unit c - 48
  else if 97 <=? code_unit c then code_unit c - 87
  else code_unit c - 55.

Fixpoint hex_digits (s : string) (acc : Z) : option Z :=
  match s with
  | EmptyString => Some acc
  | String c s' =>
      if is_hex_digit c
      then hex_digits s' (16 * acc + hex_digit_value c)
      else None
  end.

Definition hex_value (s : string) : option Z :=
  match s with
  | EmptyString => None
  | _ => hex_digits s 0
  end.

(** The integers up to 2^53 are numbers of JavaScript as they are; above,
    the runtime rounds what [parseInt] has read.  A statement that fixes
    the value read keeps to this range. *)
Definition EXACT_MAX : Z := 9007199254740992.

(** The ports [net.connect] accepts; for any other it throws before a
    socket exists.  The model has the sockets of a valid port. *)
Definition valid_port (p : Z) : Prop := 0 <= p <= 65535.

(** No integer to read at all: after white space and a sign, the string is
    empty, or starts with something that is not a decimal digit. *)
Definition no_leading_digit (s : string) : bool :=
  match snd (JS.splitSign (JS.trimStart s)) with
  | EmptyString => true
  | String c _ => negb (is_decimal_digit c)
  end.

(** The two kinds of token, as [sendCommand] tells them apart. *)
Definition is_delay (key : string) : Prop :=
  JS.startsWith key DELAY_INDENTIFIER = true.

Definition is_send (key : string) : Prop :=
  JS.startsWith key DELAY_INDENTIFIER = false.

(** The socket [client] reports [error] before its token is settled:
    instead of connecting, or after the connection and before the timer
    armed by the connect listener has fired. *)
Definition socket_fails (this : LIRCController) (net : network)
    (client : nat) (error : Error) : Prop :=
  (exists latency, net client = Fails latency error) \/
  (exists latency after,
     net client = Connects latency (Some (after, error)) /\
     Z.of_N after < timer_ms (Num (delay this))).

(** ** Closed forms of the run of one token

    [onFulfilled_delay] and [onFulfilled_send] prove that these are what
    the program computes. *)

(** The state a [Delay] token leaves: three events at the time the token
    is called, no socket, and the clock moved by the timer. *)
Definition after_delay (key : string) (ms : Number) (w : world) : world :=
  mkWorld (now w + timer_ms ms) (sockets w)
    (trace w ++ [(now w, Call key);
                 (now w, LogInfo (Delaying ms));
                 (now w, SetTimeout ms)]).

(** The events of a [Send] token up to the moment its timer is armed, on a
    socket that connects [latency] ms after the call at time [t]. *)
Definition send_events (this : LIRCController) (key : string) (client : nat)
    (t : Z) (latency : N) : list (Z * event) :=
  [(t, Call key);
   (t, Connect client (host this) (port this));
   (t + Z.of_N latency, LogInfo (Sending ("SEND_ONCE " ++ remote this ++ " " ++ key)%string));
   (t + Z.of_N latency, Write client (request this key));
   (t + Z.of_N latency, End_ client);
   (t + Z.of_N latency, SetTimeout (Num (delay this)))].

(** The run of a [Send] token, by the fate of its socket: a socket is
    opened in every case. *)
Definition send_result (this : LIRCController) (net : network)
    (key : string) (w : world) : settled * world :=
  let c := sockets w in
  let t := now w in
  let opened := [(t, Call key); (t, Connect c (host this) (port this))] in
  match net c with
  | Hangs => (Pending, mkWorld t (S c) (trace w ++ opened))
  | Fails latency error =>
      (Rejected error,
       mkWorld (t + Z.of_N latency) (S c)
         (trace w ++ opened ++ [(t + Z.of_N latency, LogError (message error))]))
  | Connects latency None =>
      (Fulfilled,
       mkWorld (t + Z.of_N latency + timer_ms (Num (delay this))) (S c)
         (trace w ++ send_events this key c t latency))
  | Connects latency (Some (after, error)) =>
      if Z.of_N after <? timer_ms (Num (delay this)) then
        (Rejected error,
         mkWorld (t + Z.of_N latency + Z.of_N after) (S c)
           (trace w ++ send_events this key c t latency
              ++ [(t + Z.of_N latency + Z.of_N after, LogError (message error))]))
      else
        (Fulfilled,
         mkWorld (t + Z.of_N latency + timer_ms (Num (delay this))) (S c)
           (trace w ++ send_events this key c t latency
              ++ [(t + Z.of_N latency + Z.of_N after, LogError (message error))]))
  end.

(** What one token, or a whole chain, leaves behind: the events [rest]
    added to the trace, none of them earlier than the start of the run, the
    clock not moved back, and each socket opened a new one. *)
Record extends (w w' : world) (rest : list (Z * event)) : Prop := {
  ext_trace : trace w' = trace w ++ rest;
  ext_times : Forall (fun te => now w <= fst te) rest;
  ext_now : now w <= now w';
  ext_sockets : connections rest = seq (sockets w) (sockets w' - sockets w);
  ext_sockets_le : (sockets w <= sockets w')%nat
}.

(** ** Reading a whole run *)

(** The duration a token hands to its timer: the parsed count of a
    [Delay], the configured delay of a [Send]. *)
Definition wait_of (this : LIRCController) (key : string) : Number :=
  if JS.startsWith key DELAY_INDENTIFIER
  then JS.parseInt (JS.drop 6 key)
  else Num (delay this).

(** The [Send] tokens of a sequence, in order. *)
Definition sends (keys : list string) : list string :=
  filter (fun key => negb (JS.startsWith key DELAY_INDENTIFIER)) keys.

(** Where the sockets of a trace were opened to. *)
Fixpoint destinations (tr : list (Z * event)) : list (string * Z) :=
  match tr with
  | [] => []
  | (_, Connect _ h p) :: tr' => (h, p) :: destinations tr'
  | _ :: tr' => destinations tr'
  end.

(** ** Sample configurations and environments *)

Definition samsung_tv : LIRCController :=
  mkLIRCController "192.168.1.20" 8765 "samsung" 100.

Definition ECONNREFUSED : Error :=
  mkError "connect ECONNREFUSED 192.168.1.20:8765" "ECONNREFUSED".

(** The same television with a delay one above the range of the timers. *)
Definition slow_tv : LIRCController :=
  mkLIRCController "192.168.1.20" 8765 "samsung" 2147483648.

(** A daemon that accepts every connection after 2 ms. *)
Definition reachable : network := fun _ => Connects 2 None.

(** A daemon that refuses every connection. *)
Definition unreachable : network := fun _ => Fails 1 ECONNREFUSED.

(** A daemon that refuses the third connection only. *)
Definition third_refused : network :=
  fun n => if Nat.eqb n 2 then Fails 1 ECONNREFUSED else Connects 2 None.

(** ** The accessory: [LIRCTelevision]

    The handlers HomeKit calls, in the two files that define the class:
    [src/platformAccessory.ts] and a later version of it.  A handler is run
    to the end of everything it starts, from a state of the process; two
    handlers are run one after the other. *)

(** The values HomeKit hands to a handler (a [CharacteristicValue]): a
    boolean or a number. *)
Inductive JSValue : Type :=
  | VBool (b : bool)
  | VNum (z : Z).

(** Truthiness, as tested by [value ? a : b]. *)
Definition truthy (value : JSValue) : bool :=
  match value with
  | VBool b => b
  | VNum z => negb (z =? 0)
  end.

(** [`${value}`], for the integers below 10^21, which are printed in
    full. *)
Definition toString (value : JSValue) : string :=
  match value with
  | VBool true => "true"
  | VBool false => "false"
  | VNum z => NilZero.string_of_int (Z.to_int z)
  end.

(** [x || d], for a configured number [x] that may be missing: [d] stands
    in for [undefined], [0] and [NaN]. *)
Definition or_default (x : option Number) (d : Z) : Z :=
  match x with
  | Some (Num z) => if z =? 0 then d else z
  | _ => d
  end.

(** An object used as a map from numbers to token lists: [m[k] = v] puts a
    binding in front, [m[k]] reads the first one, [k in m] asks whether
    there is one. *)
Definition JSObject : Type := list (Z * list string).

Definition obj_set (m : JSObject) (k : Z) (v : list string) : JSObject :=
  (k, v) :: m.

Fixpoint obj_get (m : JSObject) (k : Z) : option (list string) :=
  match m with
  | [] => None
  | (k', v) :: m' => if k' =? k then Some v else obj_get m' k
  end.

(** The property a value names in such an object: a number names itself, a
    boolean names no number. *)
Definition key_of (value : JSValue) : option Z :=
  match value with
  | VNum z => Some z
  | VBool _ => None
  end.

(** The configuration of one device, [accessory.context.device]; the
    fields the code tests before use are optional. *)
Module Input.
Record t : Type := mk {
  id : string;
  name : string;
  type : Z;
  command : list string
}.
End Input.

Module RemoteKey.
Record t : Type := mk {
  type : Z;
  command : list string
}.
End RemoteKey.

Module Device.
Record t : Type := mk {
  name : string;
  host : string;
  port : option Number;
  remote : string;
  delay : option Number;
  powerOn : list string;
  powerOff : list string;
  inputs : option (list Input.t);
  muteOn : option (list string);
  muteOff : option (list string);
  volumeUp : option (list string);
  volumeDown : option (list string);
  remoteKeys : option (list RemoteKey.t)
}.
End Device.

(** What the accessory does towards HomeKit and the platform log. *)
Inductive hap_event : Type :=
  | Callback (error : option Error) (value : option JSValue)   (* callback(error, value) *)
  | UpdateActive (value : JSValue)      (* updateCharacteristic(Characteristic.Active, value) *)
  | LogDebug (text : string) (value : JSValue)                 (* platform.log.debug(text, value) *)
  | PlatformLogError (error : Error).                          (* platform.log.error(error) *)

(** [this.states] *)
Record States : Type := mkStates {
  Active : JSValue;
  ActiveIdentifier : JSValue
}.

(** The process with the accessory in it: the state of the dispatcher's
    process, [this.states], and what HomeKit and the platform log have
    received, each event with its time. *)
Record home : Type := mkHome {
  process : world;
  states : States;
  homekit : list (Z * hap_event)
}.

Definition initial_home : home :=
  mkHome initial_world (mkStates (VBool false) (VNum 0)) [].

Definition notify (e : hap_event) (h : home) : home :=
  mkHome (process h) (states h) (homekit h ++ [(now (process h), e)]).

Definition callback (error : option Error) (value : option JSValue) (h : home) : home :=
  notify (Callback error value) h.

Definition set_Active (value : JSValue) (h : home) : home :=
  mkHome (process h) (mkStates value (ActiveIdentifier (states h))) (homekit h).

Definition set_ActiveIdentifier (value : JSValue) (h : home) : home :=
  mkHome (process h) (mkStates (Active (states h)) value) (homekit h).

(** A promise of the accessory, run to its end. *)
Definition HPromise : Type := home -> settled * home.

(** A promise of the dispatcher, seen from the accessory. *)
Definition lift (p : Promise) : HPromise :=
  fun h => let '(s, w') := p (process h) in (s, mkHome w' (states h) (homekit h)).

(** [p.then(f)] for a handler [f] that returns nothing. *)
Definition then_h (p : HPromise) (f : home -> home) : HPromise :=
  fun h =>
    match p h with
    | (Fulfilled, h') => (Fulfilled, f h')
    | other => other
    end.

(** [p.catch(g)] for a handler [g] that returns nothing. *)
Definition catch_h (p : HPromise) (g : Error -> home -> home) : HPromise :=
  fun h =>
    match p h with
    | (Rejected error, h') => (Fulfilled, g error h')
    | other => other
    end.

(** A call that may throw a [TypeError] before anything else happens. *)
Inductive sync (A : Type) : Type :=
  | Returns (a : A)
  | ThrowsTypeError.

Arguments Returns {A} a.
Arguments ThrowsTypeError {A}.

(** [new LIRCController(device.host, device.port || 8765, device.remote,
    device.delay || 0, platform.log)], in both files. *)
Definition controller_of (device : Device.t) : LIRCController :=
  mkLIRCController (Device.host device) (or_default (Device.port device) 8765)
    (Device.remote device) (or_default (Device.delay device) 0).

(** [getActive], the same in both files. *)
Definition getActive (h : home) : home :=
  let isOn := Active (states h) in
  callback None (Some isOn) (notify (LogDebug "Get Characteristic On ->" isOn) h).

(** [src/platformAccessory.ts] *)
Module PlatformAccessory.

Section LIRCTelevision.

Variable device : Device.t.
Variable net : network.

(** [setActive], lines 132-157.  The chain is built first, but its first
    step runs only after the handler has returned: [callback(null)] at the
    end of the handler comes before everything the chain does. *)
Definition setActive (value : JSValue) (h : home) : home :=
  let chain :=
    catch_h
      (then_h
         (lift (sendCommands (controller_of device) net
                  (if truthy value then Device.powerOn device
                   else Device.powerOff device)))
         (fun h =>
            let h := notify (UpdateActive value) h in
            let h := set_Active value h in
            let h := notify (LogDebug "Set Characteristic Active ->" value) h in
            callback None None h))
      (fun error h => callback (Some error) None (notify (PlatformLogError error) h)) in
  snd (chain (callback None None h)).

End LIRCTelevision.

End PlatformAccessory.

(** The later version of the class, [src/unnamed/part_001]. *)
Module Television.

Section LIRCTelevision.

Variable device : Device.t.
Variable net : network.

(** What every handler does when the chain is rejected. *)
Definition on_rejected (error : Error) (h : home) : home :=
  callback (Some error) None (notify (PlatformLogError error) h).

(** [setActive] *)
Definition setActive (value : JSValue) (h : home) : home :=
  snd (catch_h
         (then_h
            (lift (sendCommands (controller_of device) net
                     (if truthy value then Device.powerOn device
                      else Device.powerOff device)))
            (fun h =>
               let h := notify (UpdateActive value) h in
               let h := set_Active value h in
               let h := notify (LogDebug "Set Characteristic Active ->" value) h in
               callback None None h))
         on_rejected h).

(** [inputs[value]] *)
Definition input_at (value : JSValue) : option Input.t :=
  match Device.inputs device, value with
  | Some inputs, VNum z => if 0 <=? z then nth_error inputs (Z.to_nat z) else None
  | _, _ => None
  end.

(** [setActiveIdentifier]: reading [command] of an input that is not there
    throws. *)
Definition setActiveIdentifier (value : JSValue) (h : home) : sync home :=
  match input_at value with
  | None => ThrowsTypeError
  | Some thisInput =>
      Returns
        (snd (catch_h
                (then_h
                   (lift (sendCommands (controller_of device) net
                            (Input.command thisInput)))
                   (fun h =>
                      let h := set_ActiveIdentifier value h in
                      let h := notify (LogDebug "Set Characteristic Active Identifier -> " value) h in
                      callback None None h))
                on_rejected h))
  end.

(** [sendCommands(keys)] on a list that may be missing: [keys.reduce]
    throws on [undefined]. *)
Definition run_optional (keys : option (list string)) (text : string)
    (value : JSValue) (h : home) : sync home :=
  match keys with
  | None => ThrowsTypeError
  | Some keys =>
      Returns
        (snd (catch_h
                (then_h (lift (sendCommands (controller_of device) net keys))
                   (fun h => callback None None (notify (LogDebug text value) h)))
                on_rejected h))
  end.

(** [setMute] *)
Definition setMute (value : JSValue) (h : home) : sync home :=
  run_optional
    (if truthy value then Device.muteOn device else Device.muteOff device)
    "Set Mute Active ->" value h.

(** [setVolume] *)
Definition setVolume (value : JSValue) (h : home) : sync home :=
  run_optional
    (if truthy value then Device.volumeDown device else Device.volumeUp device)
    "Set Vol ->" value h.

(** The condition under which the constructor registers [setMute] and
    [setVolume]: the four lists are there (an empty list counts). *)
Definition speaker_registered : bool :=
  match Device.muteOn device, Device.muteOff device,
        Device.volumeUp device, Device.volumeDown device with
  | Some _, Some _, Some _, Some _ => true
  | _, _, _, _ => false
  end.

(** [mappedRemoteKeys], filled by the constructor's [forEach]. *)
Definition mappedRemoteKeys (remoteKeys : list RemoteKey.t) : JSObject :=
  fold_left (fun m remoteKey =>
               obj_set m (RemoteKey.type remoteKey) (RemoteKey.command remoteKey))
            remoteKeys [].

(** The handler the constructor registers for [RemoteKey] when
    [device.remoteKeys] is there. *)
Definition onRemoteKey (remoteKeys : list RemoteKey.t) (value : JSValue)
    (h : home) : home :=
  match match key_of value with
        | Some k => obj_get (mappedRemoteKeys remoteKeys) k
        | None => None
        end with
  | Some command =>
      snd (catch_h
             (then_h (lift (sendCommands (controller_of device) net command))
                (fun h => callback None None h))
             on_rejected h)
  | None =>
      callback
        (Some (mkError ("This RemoteKey has not been configured: " ++ toString value)%string ""))
        None h
  end.

End LIRCTelevision.

End Television.

(** ** Reading what HomeKit received *)

(** What a handler has added to what HomeKit and the log received. *)
Definition received (h h' : home) : list (Z * hap_event) :=
  skipn (List.length (homekit h)) (homekit h').

(** The calls of the callback, in order. *)
Fixpoint callbacks (evs : list (Z * hap_event)) : list (option Error * option JSValue) :=
  match evs with
  | [] => []
  | (_, Callback error value) :: evs' => (error, value) :: callbacks evs'
  | _ :: evs' => callbacks evs'
  end.

(** A sample device: a television with two inputs and remote keys. *)
Definition living_room : Device.t :=
  Device.mk "TV" "192.168.1.20" None "samsung" (Some (Num 100))
    ["KEY_POWER"] ["KEY_POWER"; "DELAY|500"; "KEY_ENTER"]
    (Some [Input.mk "hdmi1" "HDMI 1" 3 ["KEY_HDMI1"];
           Input.mk "hdmi2" "HDMI 2" 3 ["KEY_HDMI2"; "DELAY|250"; "KEY_ENTER"]])
    (Some ["KEY_MUTE"]) (Some ["KEY_MUTE"])
    (Some ["KEY_VOLUMEUP"]) (Some ["KEY_VOLUMEDOWN"])
    (Some [RemoteKey.mk 4 ["KEY_UP"]; RemoteKey.mk 5 ["KEY_DOWN"];
           RemoteKey.mk 4 ["KEY_CHANNELUP"]]).

(** ** Proof steps *)

Arguments timer_ms : simpl never.
Arguments JS.parseInt : simpl never.
Arguments JS.drop : simpl never.
Arguments request : simpl never.

Ltac norm_world :=
  unfold record, record_after, elapse, open_socket; cbn [now sockets trace];
  repeat rewrite <- app_assoc; cbn [app].

(** ** The promise chain *)

Section Chain.

Variable this : LIRCController.
Variable net : network.

Lemma fold_reducer_then (keys : list string) :
  forall (c : Promise) (w : world),
    fold_left (reducer this net) keys c w
    = then_ c (fun _ => sendCommands this net keys) w.
Proof.
  induction keys as [|k ks IH]; intros c w; simpl.
  - unfold then_, sendCommands, Promise_resolve, resolve; simpl.
    destruct (c w) as [[| |] w']; reflexivity.
  - rewrite IH. unfold sendCommands; simpl.
    unfold then_ at 1 2. unfold reducer at 1. unfold then_ at 1.
    destruct (c w) as [[|e|] w']; try reflexivity.
    rewrite (IH (reducer this net Promise_resolve k)).
    reflexivity.
Qed.

Lemma sendCommands_nil (w : world) :
  sendCommands this net [] w = (Fulfilled, w).
Proof. reflexivity. Qed.

Lemma sendCommands_cons (k : string) (ks : list string) (w : world) :
  sendCommands this net (k :: ks) w
  = then_ (onFulfilled this net k) (fun _ => sendCommands this net ks) w.
Proof.
  unfold sendCommands; simpl. rewrite fold_reducer_then.
  unfold then_, reducer, then_, Promise_resolve, resolve. reflexivity.
Qed.

Lemma sendCommands_app (xs ys : list string) :
  forall w,
    sendCommands this net (xs ++ ys) w
    = then_ (sendCommands this net xs) (fun _ => sendCommands this net ys) w.
Proof.
  induction xs as [|x xs IH]; intros w.
  - reflexivity.
  - simpl. unfold then_ at 1. rewrite !sendCommands_cons. unfold then_ at 1 2.
    destruct (onFulfilled this net x w) as [[|e|] w1]; try reflexivity.
    rewrite IH. reflexivity.
Qed.

End Chain.

(** ** One token *)

Lemma replace_prefix (s p rep : string) :
  String.prefix p s = true ->
  JS.replace s p rep = (rep ++ JS.drop (String.length p) s)%string.
Proof.
  intros H.
  destruct s; cbn -[String.prefix JS.drop String.length]; rewrite H; reflexivity.
Qed.

Lemma string_app_assoc (a b c : string) : ((a ++ b) ++ c = a ++ (b ++ c))%string.
Proof.
  induction a as [|x a IH]; simpl; [reflexivity | now rewrite IH].
Qed.

(** The string written is the request body followed by CR LF. *)
Lemma requestBody_CRLF (this : LIRCController) (key : string) :
  (("SEND_ONCE " ++ remote this ++ " " ++ key) ++ CRLF)%string = request this key.
Proof.
  unfold request. rewrite !string_app_assoc. reflexivity.
Qed.

Section Token.

Variable this : LIRCController.
Variable net : network.

(** A token with the prefix: a log line, a timer, fulfilled when the timer
    fires; the environment is not consulted. *)
Lemma onFulfilled_delay (key : string) (w : world) :
  JS.startsWith key DELAY_INDENTIFIER = true ->
  onFulfilled this net key w
  = (Fulfilled, after_delay key (JS.parseInt (JS.drop 6 key)) w).
Proof.
  intros H. unfold onFulfilled, new_Promise, sendCommand.
  rewrite H. unfold JS.startsWith in H. rewrite (replace_prefix _ _ _ H).
  unfold setTimeout, resolve, after_delay. norm_world. reflexivity.
Qed.

Lemma onFulfilled_send (key : string) (w : world) :
  JS.startsWith key DELAY_INDENTIFIER = false ->
  onFulfilled this net key w = send_result this net key w.
Proof.
  intros H. unfold onFulfilled, new_Promise, sendCommand, send_result.
  rewrite H. simpl sockets. rewrite requestBody_CRLF.
  destruct (net (sockets w)) as [latency [[after error]|]|latency error|].
  - destruct (Z.of_N after <? timer_ms (Num (delay this))).
    + unfold reject, send_events. norm_world. reflexivity.
    + unfold setTimeout, resolve, send_events. norm_world.
      replace (now w + Z.of_N latency + timer_ms (Num (delay this))
               + (Z.of_N after - timer_ms (Num (delay this))))
        with (now w + Z.of_N latency + Z.of_N after) by lia.
      reflexivity.
  - unfold setTimeout, resolve, send_events. norm_world. reflexivity.
  - unfold reject. norm_world. reflexivity.
  - norm_world. reflexivity.
Qed.

End Token.

(** ** Timers *)

Lemma timer_ms_pos (ms : Number) : 1 <= timer_ms ms.
Proof.
  destruct ms as [|z]; unfold timer_ms; [lia|].
  destruct (1 <=? z) eqn:H1; cbn [andb]; [|lia].
  destruct (z <=? TIMEOUT_MAX); lia.
Qed.

Lemma timer_ms_in_range (z : Z) :
  1 <= z <= TIMEOUT_MAX -> timer_ms (Num z) = z.
Proof.
  intros [H1 H2]. unfold timer_ms.
  apply Z.leb_le in H1, H2. now rewrite H1, H2.
Qed.

(** ** Traces *)

Lemma added_app (w w' : world) (rest : list (Z * event)) :
  trace w' = trace w ++ rest -> added w w' = rest.
Proof.
  intros H. unfold added. rewrite H, skipn_app, skipn_all, Nat.sub_diag.
  reflexivity.
Qed.

Lemma calls_app (a b : list (Z * event)) : calls (a ++ b) = calls a ++ calls b.
Proof.
  induction a as [|[t e] a IH]; simpl; [reflexivity|].
  destruct e; simpl; now rewrite IH.
Qed.

Lemma timers_app (a b : list (Z * event)) : timers (a ++ b) = timers a ++ timers b.
Proof.
  induction a as [|[t e] a IH]; simpl; [reflexivity|].
  destruct e; simpl; now rewrite IH.
Qed.

Lemma writes_app (a b : list (Z * event)) : writes (a ++ b) = writes a ++ writes b.
Proof.
  induction a as [|[t e] a IH]; simpl; [reflexivity|].
  destruct e; simpl; now rewrite IH.
Qed.

Lemma connections_app (a b : list (Z * event)) :
  connections (a ++ b) = connections a ++ connections b.
Proof.
  induction a as [|[t e] a IH]; simpl; [reflexivity|].
  destruct e; simpl; now rewrite IH.
Qed.

Lemma network_ops_app (a b : list (Z * event)) :
  network_ops (a ++ b) = network_ops a ++ network_ops b.
Proof.
  unfold network_ops. now rewrite map_app, filter_app.
Qed.

(** ** Every run extends the trace, forward in time *)

Lemma extends_refl (w : world) : extends w w [].
Proof.
  split; simpl; try lia.
  - now rewrite app_nil_r.
  - constructor.
  - now rewrite Nat.sub_diag.
Qed.

Lemma extends_trans (w1 w2 w3 : world) (r1 r2 : list (Z * event)) :
  extends w1 w2 r1 -> extends w2 w3 r2 -> extends w1 w3 (r1 ++ r2).
Proof.
  intros [T1 F1 N1 S1 L1] [T2 F2 N2 S2 L2]. split; try lia.
  - rewrite T2, T1. now rewrite app_assoc.
  - apply Forall_app. split; [exact F1|].
    eapply Forall_impl; [|exact F2]. simpl. intros; lia.
  - rewrite connections_app, S1, S2.
    replace (sockets w3 - sockets w1)%nat
      with ((sockets w2 - sockets w1) + (sockets w3 - sockets w2))%nat by lia.
    rewrite seq_app. do 2 f_equal. lia.
Qed.

Section Runs.

Variable this : LIRCController.
Variable net : network.

Lemma onFulfilled_extends (key : string) (w : world) :
  exists rest,
    extends w (snd (onFulfilled this net key w)) rest /\ calls rest = [key].
Proof.
  pose proof (timer_ms_pos (Num (delay this))) as Ht.
  pose proof (timer_ms_pos (JS.parseInt (JS.drop 6 key))) as Hd.
  assert (Hs : (S (sockets w) - sockets w = 1)%nat) by lia.
  destruct (JS.startsWith key DELAY_INDENTIFIER) eqn:Hp.
  - rewrite (onFulfilled_delay this net key w Hp). unfold after_delay.
    eexists. split; [split; cbn [snd now sockets trace]|].
    + reflexivity.
    + repeat constructor; simpl; lia.
    + lia.
    + now rewrite Nat.sub_diag.
    + lia.
    + reflexivity.
  - rewrite (onFulfilled_send this net key w Hp). unfold send_result.
    destruct (net (sockets w)) as [latency [[after error]|]|latency error|];
      [destruct (Z.of_N after <? timer_ms (Num (delay this)))| | |];
      (eexists; split; [split; cbn [snd now sockets trace]|]);
      try reflexivity; try lia;
      try (rewrite Hs; reflexivity);
      repeat constructor; simpl; lia.
Qed.

(** The chain calls [this.sendCommand] on a prefix of the tokens, in list
    order, and on all of them when it is fulfilled. *)
Lemma sendCommands_extends (keys : list string) :
  forall w,
  exists rest n,
    extends w (snd (sendCommands this net keys w)) rest /\
    calls rest = firstn n keys /\
    (fst (sendCommands this net keys w) = Fulfilled -> n = List.length keys).
Proof.
  induction keys as [|k ks IH]; intros w.
  - exists [], O. simpl. split; [apply extends_refl|split; [reflexivity|lia]].
  - rewrite sendCommands_cons. unfold then_.
    destruct (onFulfilled_extends k w) as (r1 & E1 & C1).
    destruct (onFulfilled this net k w) as [[|e|] w1] eqn:Hk; simpl in E1.
    + destruct (IH w1) as (r2 & n & E2 & C2 & F2).
      exists (r1 ++ r2), (S n). split; [|split].
      * eapply extends_trans; eassumption.
      * rewrite calls_app, C1, C2. reflexivity.
      * intros HF. simpl. f_equal. apply F2, HF.
    + exists r1, 1%nat. simpl. split; [exact E1|split; [exact C1|discriminate]].
    + exists r1, 1%nat. simpl. split; [exact E1|split; [exact C1|discriminate]].
Qed.

End Runs.

(** ** [parseInt] on the remainder of a token *)

(** A decimal digit is a digit of [parseInt], below 10, and neither white
    space nor a sign; brute force over the 256 code units. *)
Lemma decimal_digit_facts (c : ascii) :
  is_decimal_digit c = true ->
  JS.digitValue c = Some (code_unit c - 48) /\
(code_unit c - 48 <? 10) = true /\
  JS.isWhiteSpace c = false /\
  JS.splitSign (String c "") = (1, String c "") /\
  c <> "x"%char /\ c <> "X"%char.
Proof.
  destruct c as [[] [] [] [] [] [] [] []]; vm_compute; intros H;
    try discriminate H; repeat split; discriminate.
Qed.

(** Any other code unit is no digit at all, or a letter worth 10 or more. *)
Lemma non_decimal_digit_facts (c : ascii) :
  is_decimal_digit c = false ->
  match JS.digitValue c with
  | Some d => (d <? 10) = false
  | None => True
  end /\ c <> "0"%char.
Proof.
  destruct c as [[] [] [] [] [] [] [] []]; vm_compute; intros H;
    try discriminate H; split; try exact I; try reflexivity; discriminate.
Qed.

Lemma splitSign_decimal (c : ascii) (s : string) :
  is_decimal_digit c = true ->
  JS.splitSign (String c s) = (1, String c s).
Proof.
  intros H. destruct (decimal_digit_facts c H) as (_ & _ & _ & Hs & _).
  unfold JS.splitSign in *.
  destruct c as [[] [] [] [] [] [] [] []]; try reflexivity; discriminate Hs.
Qed.

Lemma digits_decimal (s : string) :
  forall a n,
    decimal_digits s a = Some n -> JS.digits 10 s (Some a) = Some n.
Proof.
  induction s as [|c s IH]; intros a n H; simpl in *.
  - exact H.
  - destruct (is_decimal_digit c) eqn:Hc; [|discriminate].
    destruct (decimal_digit_facts c Hc) as (Hd & Hlt & _).
    rewrite Hd, Hlt. now apply IH.
Qed.

Lemma hasHexPrefix_decimal (s : string) (n : Z) :
  decimal_value s = Some n -> JS.hasHexPrefix s = false.
Proof.
  destruct s as [|c [|c2 s]]; simpl; try discriminate; intros H.
  - unfold JS.hasHexPrefix; cbn -[ascii_dec].
    destruct (ascii_dec "0" c); reflexivity.
  - destruct (is_decimal_digit c); [|discriminate].
    destruct (is_decimal_digit c2) eqn:H2; [|discriminate].
    destruct (decimal_digit_facts c2 H2) as (_ & _ & _ & _ & Hx & HX).
    unfold JS.hasHexPrefix; cbn -[ascii_dec].
    destruct (ascii_dec "0" c); [|reflexivity].
    destruct (ascii_dec "x" c2) as [E|_]; [now symmetry in E|].
    destruct (ascii_dec "X" c2) as [E|_]; [now symmetry in E|].
    reflexivity.
Qed.

(** On a plain base-10 integer [parseInt] returns its value. *)
Lemma parseInt_decimal (s : string) (n : Z) :
  decimal_value s = Some n -> JS.parseInt s = Num n.
Proof.
  intros H. pose proof (hasHexPrefix_decimal s n H) as Hhex.
  unfold JS.parseInt, JS.parseInt_radix.
  destruct s as [|c s]; [discriminate|].
  cbn [decimal_value decimal_digits] in H.
  destruct (is_decimal_digit c) eqn:Hc; [|discriminate].
  destruct (decimal_digit_facts c Hc) as (Hd & Hlt & Hws & _).
  cbn [JS.trimStart]. rewrite Hws, (splitSign_decimal c s Hc).
  cbn [Z.eqb orb]. rewrite Hhex.
  cbn [JS.digits]. rewrite Hd, Hlt.
  rewrite (digits_decimal s _ n H). f_equal. lia.
Qed.

(** With no digit to read [parseInt] returns [NaN]. *)
Lemma parseInt_no_leading_digit (s : string) :
  no_leading_digit s = true -> JS.parseInt s = NaN.
Proof.
  unfold no_leading_digit, JS.parseInt, JS.parseInt_radix.
  destruct (JS.splitSign (JS.trimStart s)) as [sign rest]; cbn [snd Z.eqb orb].
  destruct rest as [|c rest]; intros H.
  - reflexivity.
  - apply negb_true_iff in H.
    destruct (non_decimal_digit_facts c H) as (Hd & H0).
    assert (Hhex : JS.hasHexPrefix (String c rest) = false).
    { unfold JS.hasHexPrefix; cbn -[ascii_dec].
      destruct (ascii_dec "0" c) as [E|_]; [now symmetry in E|reflexivity]. }
    rewrite Hhex. cbn [JS.digits].
    destruct (JS.digitValue c) as [d|]; [now rewrite Hd|reflexivity].
Qed.

(** ** The prefix *)

Lemma prefix_append (p r : string) : String.prefix p (p ++ r)%string = true.
Proof.
  induction p as [|c p IH]; cbn -[ascii_dec].
  - destruct r; reflexivity.
  - destruct (ascii_dec c c) as [_|N]; [exact IH|now elim N].
Qed.

Lemma prefix_split (p s : string) :
  String.prefix p s = true -> s = (p ++ JS.drop (String.length p) s)%string.
Proof.
  revert s. induction p as [|c p IH]; intros s H.
  - reflexivity.
  - destruct s as [|d s]; cbn -[ascii_dec] in H; [discriminate|].
    destruct (ascii_dec c d) as [E|_]; [|discriminate].
    subst d. cbn [String.length append]. unfold JS.drop; fold JS.drop.
    f_equal. now apply IH.
Qed.

Lemma drop_append (p r : string) : JS.drop (String.length p) (p ++ r)%string = r.
Proof.
  induction p as [|c p IH]; [reflexivity|exact IH].
Qed.

(** A token begins with the prefix exactly when [startsWith] says so. *)
Lemma startsWith_DELAY (key : string) :
  JS.startsWith key DELAY_INDENTIFIER = true
  <-> exists rest, key = (DELAY_INDENTIFIER ++ rest)%string.
Proof.
  unfold JS.startsWith. split.
  - intros H. eexists. apply (prefix_split _ _ H).
  - intros [rest ->]. apply prefix_append.
Qed.

(** The run of a token written as the prefix followed by [rest]. *)
Lemma onFulfilled_prefixed (this : LIRCController) (net : network)
    (rest : string) (w : world) :
  onFulfilled this net (DELAY_INDENTIFIER ++ rest)%string w
  = (Fulfilled,
     after_delay (DELAY_INDENTIFIER ++ rest)%string (JS.parseInt rest) w).
Proof.
  rewrite onFulfilled_delay by apply prefix_append.
  change 6%nat with (String.length DELAY_INDENTIFIER).
  now rewrite drop_append.
Qed.

Lemma send_result_sockets (this : LIRCController) (net : network)
    (key : string) (w : world) :
  sockets (snd (send_result this net key w)) = S (sockets w).
Proof.
  unfold send_result.
  destruct (net (sockets w)) as [latency [[after error]|]|latency error|];
    [destruct (Z.of_N after <? timer_ms (Num (delay this)))| | |]; reflexivity.
Qed.

(** ** Sequences of delays *)

Lemma errors_logged_app (a b : list (Z * event)) :
  errors_logged (a ++ b) = errors_logged a ++ errors_logged b.
Proof.
  induction a as [|[t e] a IH]; simpl; [reflexivity|].
  destruct e; simpl; now rewrite IH.
Qed.

Lemma delays_run (this : LIRCController) (net : network) (keys : list string) :
  Forall is_delay keys ->
  forall w, exists w' rest,
    sendCommands this net keys w = (Fulfilled, w') /\
    trace w' = trace w ++ rest /\
    sockets w' = sockets w /\
    errors_logged rest = [] /\ network_ops rest = [] /\ calls rest = keys.
Proof.
  induction 1 as [|k ks Hk _ IH]; intros w.
  - exists w, []. rewrite app_nil_r. repeat split; reflexivity.
  - rewrite sendCommands_cons. unfold then_.
    rewrite (onFulfilled_delay this net k w Hk).
    destruct (IH (after_delay k (JS.parseInt (JS.drop 6 k)) w))
      as (w' & rest & Hrun & Htr & Hs & He & Hn & Hc).
    exists w'. eexists. split; [exact Hrun|]. split.
    + rewrite Htr. unfold after_delay; cbn [trace]. rewrite <- app_assoc.
      reflexivity.
    + split; [exact Hs|].
      rewrite errors_logged_app, network_ops_app, calls_app, He, Hn, Hc.
      repeat split; reflexivity.
Qed.

(** ** The claims *)

(** C8.  On the empty command sequence [sendCommands] is fulfilled at once:
    the state of the process is the one it started in, so nothing was
    added to the trace -- no socket operation, no timer -- and the clock
    has not moved. *)
Theorem C8_empty_sequence (this : LIRCController) (net : network) (w : world) :
  sendCommands this net [] w = (Fulfilled, w) /\
  added w (snd (sendCommands this net [] w)) = [] /\
  network_ops (added w (snd (sendCommands this net [] w))) = [] /\
  timers (added w (snd (sendCommands this net [] w))) = [] /\
  now (snd (sendCommands this net [] w)) = now w.
Proof.
  rewrite sendCommands_nil. cbn [snd].
  assert (H : added w w = []) by (unfold added; apply skipn_all).
  rewrite H. repeat split; reflexivity.
Qed.

(** C9.  A [Delay] token cannot fail.  A token with the prefix is fulfilled
    whatever the environment does, without an error being logged; and a
    sequence made of such tokens only is fulfilled, every token called, with
    no error logged and no socket operation. *)
Theorem C9_delay_never_fails (this : LIRCController) (net : network)
    (key : string) (keys : list string) (w : world) :
  is_delay key ->
  Forall is_delay keys ->
  (fst (onFulfilled this net key w) = Fulfilled /\
   errors_logged (added w (snd (onFulfilled this net key w))) = []) /\
  (fst (sendCommands this net keys w) = Fulfilled /\
   errors_logged (added w (snd (sendCommands this net keys w))) = [] /\
   network_ops (added w (snd (sendCommands this net keys w))) = [] /\
   calls (added w (snd (sendCommands this net keys w))) = keys).
Proof.
  intros Hk Hks. split.
  - rewrite (onFulfilled_delay this net key w Hk). cbn [fst snd].
    split; [reflexivity|].
    erewrite added_app; [|unfold after_delay; cbn [trace]; reflexivity].
    reflexivity.
  - destruct (delays_run this net keys Hks w)
      as (w' & rest & Hrun & Htr & _ & He & Hn & Hc).
    rewrite Hrun. cbn [fst snd]. rewrite (added_app w w' rest Htr).
    repeat split; assumption.
Qed.

Lemma C9_delay_never_fails_witness :
  is_delay "DELAY|250" /\
  Forall is_delay ["DELAY|250"; "DELAY|abc"] /\
  fst (sendCommands samsung_tv unreachable ["DELAY|250"; "DELAY|abc"] initial_world)
  = Fulfilled.
Proof.
  assert (H1 : is_delay "DELAY|250") by reflexivity.
  assert (H2 : Forall is_delay ["DELAY|250"; "DELAY|abc"])
    by (repeat constructor).
  split; [exact H1|split; [exact H2|]].
  exact (proj1 (proj2
    (C9_delay_never_fails samsung_tv unreachable "DELAY|250"
       ["DELAY|250"; "DELAY|abc"] initial_world H1 H2))).
Defined.

(** A hexadecimal digit is a digit of [parseInt] below 16; brute force
    over the 256 code units. *)
Lemma hex_digit_facts (c : ascii) :
  is_hex_digit c = true ->
  JS.digitValue c = Some (hex_digit_value c) /\
  (hex_digit_value c <? 16) = true.
Proof.
  destruct c as [[] [] [] [] [] [] [] []]; vm_compute; intros H;
    try discriminate H; split; reflexivity.
Qed.

Lemma digits_hex (s : string) :
  forall a n,
    hex_digits s a = Some n -> JS.digits 16 s (Some a) = Some n.
Proof.
  induction s as [|c s IH]; intros a n H; cbn [hex_digits JS.digits] in *.
  - exact H.
  - destruct (is_hex_digit c) eqn:Hc; [|discriminate].
    destruct (hex_digit_facts c Hc) as (Hd & Hlt).
    rewrite Hd, Hlt. now apply IH.
Qed.

(** After [0x] or [0X], [parseInt] reads base 16. *)
Lemma parseInt_hex_value (x : ascii) (h : string) (n : Z) :
  x = "x"%char \/ x = "X"%char ->
  hex_value h = Some n ->
  JS.parseInt (String "0" (String x h)) = Num n.
Proof.
  intros Hx Hn.
  assert (Hpre : JS.hasHexPrefix (String "0" (String x h)) = true)
    by (destruct h; destruct Hx as [-> | ->]; reflexivity).
  unfold JS.parseInt, JS.parseInt_radix. cbn [JS.trimStart].
  change (JS.isWhiteSpace "0") with false. cbv iota.
  change (JS.splitSign (String "0" (String x h)))
    with (1, String "0" (String x h)).
  cbn [Z.eqb orb]. rewrite Hpre.
  change (JS.drop 2 (String "0" (String x h))) with h.
  destruct h as [|c h]; [discriminate|].
  cbn [hex_value hex_digits] in Hn. cbn [JS.digits].
  destruct (is_hex_digit c) eqn:Hc; [|discriminate].
  destruct (hex_digit_facts c Hc) as (Hd & Hlt).
  rewrite Hd, Hlt, (digits_hex h _ n Hn). f_equal. lia.
Qed.

(** C4, as stated, at the token ["DELAY|0x10"]: the remainder ["0x10"] is
    no base-10 integer, and read in base 10 it gives 0, yet the token arms
    a timer of 16 ms: [parseInt] has no radix and reads base 16 after
    [0x]. *)
Lemma C4_counterexample :
  decimal_value "0x10" = None /\
  JS.parseInt_radix "0x10" 10 = Num 0 /\
  onFulfilled samsung_tv reachable "DELAY|0x10" initial_world
  = (Fulfilled, after_delay "DELAY|0x10" (Num 16) initial_world) /\
  ~ (forall (this : LIRCController) (net : network) (rest : string) (w : world),
       onFulfilled this net (DELAY_INDENTIFIER ++ rest)%string w
       = (Fulfilled,
          after_delay (DELAY_INDENTIFIER ++ rest)%string
            (JS.parseInt_radix rest 10) w)).
Proof.
  split; [reflexivity|]. split; [reflexivity|]. split; [reflexivity|].
  intros H. specialize (H samsung_tv reachable "0x10" initial_world).
  vm_compute in H. discriminate H.
Qed.

(** C4, amended.  A token is run as a [Delay] (a log line and a timer, no
    socket: [after_delay]) exactly when it begins with the prefix
    ["DELAY|"], and as a [Send] (a socket is opened: [send_result]) exactly
    when it does not.  What follows the prefix is read by [parseInt] with
    no radix: a remainder of decimal digits only is read in base 10 and
    arms the timer with that integer; a remainder of [0x] or [0X] and
    hexadecimal digits only is read in base 16 and arms the timer with
    that integer; both for integers up to 2^53. *)
Theorem C4_token_encoding (this : LIRCController) (net : network)
    (key : string) (w : world) :
  ((exists rest, key = (DELAY_INDENTIFIER ++ rest)%string)
   <-> exists ms, onFulfilled this net key w = (Fulfilled, after_delay key ms w)) /\
  ((~ exists rest, key = (DELAY_INDENTIFIER ++ rest)%string)
   <-> onFulfilled this net key w = send_result this net key w) /\
  (forall rest n,
     key = (DELAY_INDENTIFIER ++ rest)%string ->
     decimal_value rest = Some n -> n <= EXACT_MAX ->
     onFulfilled this net key w = (Fulfilled, after_delay key (Num n) w)) /\
  (forall x h n,
     key = (DELAY_INDENTIFIER ++ String "0" (String x h))%string ->
     x = "x"%char \/ x = "X"%char ->
     hex_value h = Some n -> n <= EXACT_MAX ->
     onFulfilled this net key w = (Fulfilled, after_delay key (Num n) w)).
Proof.
  assert (Hex : forall a b : settled * world,
            a = b -> sockets (snd a) = sockets (snd b))
    by (intros a b E; now rewrite E).
  assert (Hdelay : forall rest, key = (DELAY_INDENTIFIER ++ rest)%string ->
            onFulfilled this net key w
            = (Fulfilled, after_delay key (JS.parseInt rest) w)).
  { intros rest E. rewrite E. apply onFulfilled_prefixed. }
  assert (Hdec : forall rest n,
            key = (DELAY_INDENTIFIER ++ rest)%string ->
            decimal_value rest = Some n -> n <= EXACT_MAX ->
            onFulfilled this net key w = (Fulfilled, after_delay key (Num n) w)).
  { intros r n Er Hn _. rewrite (Hdelay r Er), (parseInt_decimal r n Hn).
    reflexivity. }
  assert (Hhex : forall x h n,
            key = (DELAY_INDENTIFIER ++ String "0" (String x h))%string ->
            x = "x"%char \/ x = "X"%char ->
            hex_value h = Some n -> n <= EXACT_MAX ->
            onFulfilled this net key w = (Fulfilled, after_delay key (Num n) w)).
  { intros x h n Er Hx Hn _.
    rewrite (Hdelay _ Er), (parseInt_hex_value x h n Hx Hn). reflexivity. }
  destruct (JS.startsWith key DELAY_INDENTIFIER) eqn:Hp.
  - pose proof (proj1 (startsWith_DELAY key) Hp) as [rest E].
    split; [|split; [|split]].
    + split; [intros _; eexists; apply (Hdelay rest E)|eauto].
    + split; [intros N; elim N; eauto|].
      intros Hs. apply Hex in Hs.
      rewrite (Hdelay rest E), send_result_sockets in Hs. simpl in Hs. lia.
    + exact Hdec.
    + exact Hhex.
  - assert (Hno : ~ exists rest, key = (DELAY_INDENTIFIER ++ rest)%string).
    { intros Hx. apply startsWith_DELAY in Hx. congruence. }
    split; [|split; [|split]].
    + split; [intros Hx; now elim Hno|].
      intros [ms Hms]. apply Hex in Hms.
      rewrite (onFulfilled_send this net key w Hp), send_result_sockets in Hms.
      simpl in Hms. lia.
    + split; [intros _; apply onFulfilled_send, Hp|intros _; exact Hno].
    + exact Hdec.
    + exact Hhex.
Qed.

(** C10, as stated, at the token ["DELAY|12abc"]: the remainder ["12abc"]
    is not a base-10 integer, yet the count is not [NaN]: [parseInt] reads
    the leading digits and the token arms a timer of 12 ms. *)
Lemma C10_counterexample :
  decimal_value "12abc" = None /\
  JS.parseInt "12abc" = Num 12 /\
  timers (trace (snd (onFulfilled samsung_tv reachable "DELAY|12abc" initial_world)))
  = [Num 12] /\
  ~ (forall (this : LIRCController) (net : network) (w : world) (rest : string),
       decimal_value rest = None ->
       onFulfilled this net (DELAY_INDENTIFIER ++ rest)%string w
       = (Fulfilled, after_delay (DELAY_INDENTIFIER ++ rest)%string NaN w)).
Proof.
  split; [reflexivity|]. split; [reflexivity|]. split; [reflexivity|].
  intros H.
  specialize (H samsung_tv reachable initial_world "12abc" eq_refl).
  vm_compute in H. discriminate H.
Qed.

(** C10, amended.  Every token that begins with ["DELAY|"] is run as a
    [Delay] and is fulfilled.  When the remainder has no integer to read
    (after white space and a sign it is empty or starts with something
    other than a decimal digit, as in ["DELAY|"] and ["DELAY|abc"]), the
    count is [NaN]; the timer is armed with [NaN], which it treats as a
    delay of 0, its shortest wait; no socket operation happens, no error is
    logged, and the chain goes on with the next token. *)
Theorem C10_nan_delay (this : LIRCController) (net : network)
    (rest : string) (keys : list string) (w : world) :
  no_leading_digit rest = true ->
  let key := (DELAY_INDENTIFIER ++ rest)%string in
  (forall rest' : string,
     onFulfilled this net (DELAY_INDENTIFIER ++ rest')%string w
     = (Fulfilled,
        after_delay (DELAY_INDENTIFIER ++ rest')%string (JS.parseInt rest') w)) /\
  JS.parseInt rest = NaN /\
  onFulfilled this net key w = (Fulfilled, after_delay key NaN w) /\
  timers (added w (after_delay key NaN w)) = [NaN] /\
  network_ops (added w (after_delay key NaN w)) = [] /\
  errors_logged (added w (after_delay key NaN w)) = [] /\
  now (after_delay key NaN w) = now w + timer_ms (Num 0) /\
  (forall ms, timer_ms NaN <= timer_ms ms) /\
  sendCommands this net (key :: keys) w
  = sendCommands this net keys (after_delay key NaN w).
Proof.
  intros Hno key.
  assert (Hall : forall rest' : string,
     onFulfilled this net (DELAY_INDENTIFIER ++ rest')%string w
     = (Fulfilled,
        after_delay (DELAY_INDENTIFIER ++ rest')%string (JS.parseInt rest') w)).
  { intros r. apply onFulfilled_prefixed. }
  pose proof (parseInt_no_leading_digit rest Hno) as Hnan.
  assert (Hrun : onFulfilled this net key w = (Fulfilled, after_delay key NaN w)).
  { unfold key. rewrite Hall, Hnan. reflexivity. }
  assert (Hadd : added w (after_delay key NaN w)
                 = [(now w, Call key); (now w, LogInfo (Delaying NaN));
                    (now w, SetTimeout NaN)]).
  { apply added_app. reflexivity. }
  split; [exact Hall|]. split; [exact Hnan|]. split; [exact Hrun|].
  rewrite Hadd. repeat split.
  - intros ms. pose proof (timer_ms_pos ms). unfold timer_ms at 1. exact H.
  - rewrite sendCommands_cons. unfold then_. rewrite Hrun. reflexivity.
Qed.

Lemma C10_nan_delay_witness :
  no_leading_digit "abc" = true /\
  onFulfilled samsung_tv reachable "DELAY|abc" initial_world
  = (Fulfilled, after_delay "DELAY|abc" NaN initial_world).
Proof.
  split; [reflexivity|].
  exact (proj1 (proj2 (proj2
    (C10_nan_delay samsung_tv reachable "abc" [] initial_world eq_refl)))).
Defined.

(** ** Failures *)

Lemma send_result_rejected (this : LIRCController) (net : network)
    (key : string) (w : world) (error : Error) :
  fst (send_result this net key w) = Rejected error
  <-> socket_fails this net (sockets w) error.
Proof.
  unfold send_result, socket_fails.
  destruct (net (sockets w)) as [latency [[after e]|]|latency e|].
  - destruct (Z.of_N after <? timer_ms (Num (delay this))) eqn:Hlt; cbn [fst].
    + apply Z.ltb_lt in Hlt. split.
      * intros [= ->]. right. eauto.
      * intros [[l [=]]|(l & a & [= <- <- <-] & _)]. reflexivity.
    + apply Z.ltb_ge in Hlt. split; [discriminate|].
      intros [[l [=]]|(l & a & [= <- <- <-] & Ha)]. lia.
  - cbn [fst]. split; [discriminate|].
    intros [[l [=]]|(l & a & [=] & _)].
  - cbn [fst]. split.
    + intros [= ->]. left. eauto.
    + intros [[l [= <- <-]]|(l & a & [=] & _)]. reflexivity.
  - cbn [fst]. split; [discriminate|].
    intros [[l [=]]|(l & a & [=] & _)].
Qed.

(** A failing token leaves the error line as the last event of the trace. *)
Lemma send_result_rejected_trace (this : LIRCController) (net : network)
    (key : string) (w : world) (error : Error) :
  fst (send_result this net key w) = Rejected error ->
  exists tr t,
    trace (snd (send_result this net key w))
    = trace w ++ tr ++ [(t, LogError (message error))] /\
    errors_logged tr = [] /\
    connections tr = [sockets w].
Proof.
  unfold send_result.
  destruct (net (sockets w)) as [latency [[after e]|]|latency e|].
  - destruct (Z.of_N after <? timer_ms (Num (delay this))); cbn [fst snd trace];
      [|discriminate].
    intros [= ->]. do 2 eexists. split; [reflexivity|]. split; reflexivity.
  - discriminate.
  - cbn [fst snd trace]. intros [= ->].
    exists [(now w, Call key); (now w, Connect (sockets w) (host this) (port this))].
    eexists. split; [reflexivity|]. split; reflexivity.
  - discriminate.
Qed.

Lemma sendCommands_fulfilled (this : LIRCController) (net : network)
    (keys : list string) (w w1 : world) :
  sendCommands this net keys w = (Fulfilled, w1) ->
  exists rest, extends w w1 rest /\ calls rest = keys.
Proof.
  intros H. destruct (sendCommands_extends this net keys w) as (rest & n & E & C & F).
  rewrite H in E, F. cbn [fst snd] in E, F.
  exists rest. split; [exact E|].
  rewrite C, (F eq_refl). apply firstn_all.
Qed.

(** C1.  When the chain reaches a [Send] token whose socket reports an
    error before the token is settled, [sendCommands] is rejected with that
    error, and the tokens after it change nothing: the result is the one of
    the sequence cut after the failing token.  The calls recorded are those
    of the tokens up to the failing one, the failing token opened one
    socket, the next one, and the error line is the last event of the
    trace: no later connection, no later timer. *)
Theorem C1_fail_fast (this : LIRCController) (net : network)
    (pre : list string) (key : string) (post : list string)
    (w w1 : world) (error : Error) :
  sendCommands this net pre w = (Fulfilled, w1) ->
  is_send key ->
  socket_fails this net (sockets w1) error ->
  exists w2 tr t,
    sendCommands this net (pre ++ key :: post) w = (Rejected error, w2) /\
    sendCommands this net (pre ++ [key]) w = (Rejected error, w2) /\
    calls (added w w2) = pre ++ [key] /\
    added w1 w2 = tr ++ [(t, LogError (message error))] /\
    connections (added w1 w2) = [sockets w1] /\
    sockets w2 = S (sockets w1).
Proof.
  intros Hpre Hsend Hfail.
  pose proof (proj2 (send_result_rejected this net key w1 error) Hfail) as Hrej.
  destruct (send_result_rejected_trace this net key w1 error Hrej)
    as (tr & t & Htr & _ & Hconn).
  pose proof (send_result_sockets this net key w1) as Hsock.
  pose proof (onFulfilled_send this net key w1 Hsend) as Hone.
  destruct (send_result this net key w1) as [out w2] eqn:Hres.
  cbn [fst snd] in *. subst out.
  destruct (sendCommands_fulfilled this net pre w w1 Hpre) as (r1 & E1 & C1).
  destruct (onFulfilled_extends this net key w1) as (r2 & E2 & C2).
  rewrite Hone in E2. cbn [snd] in E2.
  exists w2, tr, t.
  assert (Hcut : forall ks, sendCommands this net (pre ++ key :: ks) w
                            = (Rejected error, w2)).
  { intros ks. rewrite sendCommands_app. unfold then_ at 1. rewrite Hpre.
    rewrite sendCommands_cons. unfold then_. rewrite Hone. reflexivity. }
  split; [apply Hcut|]. split; [apply Hcut|]. split; [|split; [|split]].
  - rewrite (added_app w w2 (r1 ++ r2)).
    + rewrite calls_app, C1, C2. reflexivity.
    + rewrite (ext_trace _ _ _ E2), (ext_trace _ _ _ E1), app_assoc. reflexivity.
  - apply added_app. exact Htr.
  - rewrite (added_app w1 w2 _ Htr), connections_app, Hconn. simpl.
    reflexivity.
  - exact Hsock.
Qed.

Lemma C1_fail_fast_witness :
  sendCommands samsung_tv third_refused ["A"; "B"] initial_world
  = (Fulfilled, snd (sendCommands samsung_tv third_refused ["A"; "B"] initial_world)) /\
  is_send "C" /\
  fst (sendCommands samsung_tv third_refused ["A"; "B"; "C"; "D"; "E"] initial_world)
  = Rejected ECONNREFUSED.
Proof.
  assert (H1 : sendCommands samsung_tv third_refused ["A"; "B"] initial_world
               = (Fulfilled,
                  snd (sendCommands samsung_tv third_refused ["A"; "B"] initial_world)))
    by reflexivity.
  assert (H2 : is_send "C") by reflexivity.
  assert (H3 : socket_fails samsung_tv third_refused
                 (sockets (snd (sendCommands samsung_tv third_refused ["A"; "B"]
                                  initial_world))) ECONNREFUSED)
    by (left; exists 1%N; reflexivity).
  split; [exact H1|split; [exact H2|]].
  destruct (C1_fail_fast samsung_tv third_refused ["A"; "B"] "C" ["D"; "E"]
              initial_world _ ECONNREFUSED H1 H2 H3) as (w2 & tr & t & H & _).
  cbn [app] in H. rewrite H. reflexivity.
Defined.

(** C5, as stated, would give a way to read the offending token off the
    error returned.  Against a daemon that refuses every connection the
    runs of ["KEY_POWER"] and of ["KEY_MUTE"] are rejected with the same
    error object, so no function of the error names the token. *)
Lemma C5_counterexample :
  fst (sendCommands samsung_tv unreachable ["KEY_POWER"] initial_world)
  = Rejected ECONNREFUSED /\
  fst (sendCommands samsung_tv unreachable ["KEY_MUTE"] initial_world)
  = Rejected ECONNREFUSED /\
  ~ exists identify : Error -> string,
      forall (this : LIRCController) (net : network) (keys : list string)
             (w w' : world) (error : Error),
        sendCommands this net keys w = (Rejected error, w') ->
        last (calls (added w w')) "" = identify error.
Proof.
  split; [reflexivity|]. split; [reflexivity|].
  intros [identify H].
  pose proof (H samsung_tv unreachable ["KEY_POWER"] initial_world _ _ eq_refl) as H1.
  pose proof (H samsung_tv unreachable ["KEY_MUTE"] initial_world _ _ eq_refl) as H2.
  vm_compute in H1, H2. rewrite <- H2 in H1. discriminate H1.
Qed.

Lemma send_result_outcome (this : LIRCController) (net : network)
    (key key' : string) (w : world) :
  fst (send_result this net key w) = fst (send_result this net key' w).
Proof.
  unfold send_result.
  destruct (net (sockets w)) as [latency [[after e]|]|latency e|];
    [destruct (Z.of_N after <? timer_ms (Num (delay this)))| | |]; reflexivity.
Qed.

(** C5, amended.  With a port [net.connect] accepts, so that every [Send]
    token gets a socket, a rejected run returns the error object of a
    socket as the socket reported it: the first token that fails is a
    [Send] token reached with all the tokens before it fulfilled, its
    socket reported that error before the token was settled, and the
    message of the error is the one error line logged for it.  The error
    does not depend on the token: any other [Send] token in its place gives
    the same rejection. *)
Theorem C5_error_passed_through (this : LIRCController) (net : network)
    (keys : list string) :
  valid_port (port this) ->
  forall (w w' : world) (error : Error),
  sendCommands this net keys w = (Rejected error, w') ->
  exists pre key post w1,
    keys = pre ++ key :: post /\
    sendCommands this net pre w = (Fulfilled, w1) /\
    is_send key /\
    socket_fails this net (sockets w1) error /\
    errors_logged (added w1 w') = [message error] /\
    forall key', is_send key' ->
      fst (sendCommands this net (pre ++ key' :: post) w) = Rejected error.
Proof.
  intros _.
  induction keys as [|k ks IH]; intros w w' error Hrun.
  - discriminate Hrun.
  - rewrite sendCommands_cons in Hrun. unfold then_ in Hrun.
    destruct (onFulfilled this net k w) as [[|e|] wk] eqn:Hk.
    + destruct (IH wk w' error Hrun)
        as (pre & key & post & w1 & -> & Hpre & Hs & Hf & Hlog & Hany).
      exists (k :: pre), key, post, w1. repeat split; try assumption.
      * rewrite sendCommands_cons. unfold then_. rewrite Hk. exact Hpre.
      * intros key' Hs'. cbn [app]. rewrite sendCommands_cons. unfold then_.
        rewrite Hk. apply Hany, Hs'.
    + injection Hrun as -> ->.
      assert (Hs : is_send k).
      { unfold is_send. destruct (JS.startsWith k DELAY_INDENTIFIER) eqn:Hp;
          [|reflexivity].
        rewrite (onFulfilled_delay this net k w Hp) in Hk. discriminate Hk. }
      rewrite (onFulfilled_send this net k w Hs) in Hk.
      assert (Hrej : fst (send_result this net k w) = Rejected error)
        by now rewrite Hk.
      exists [], k, ks, w. repeat split; try assumption.
      * apply (send_result_rejected this net k w error), Hrej.
      * destruct (send_result_rejected_trace this net k w error Hrej)
          as (tr & t & Htr & Herr & _).
        rewrite Hk in Htr. cbn [snd] in Htr.
        rewrite (added_app w w' _ Htr), errors_logged_app, Herr. reflexivity.
      * intros key' Hs'. cbn [app]. rewrite sendCommands_cons. unfold then_.
        rewrite (onFulfilled_send this net key' w Hs').
        pose proof (send_result_outcome this net key' k w) as Ho.
        rewrite Hrej in Ho.
        destruct (send_result this net key' w) as [o wo]. cbn [fst] in Ho.
        subst o. reflexivity.
    + discriminate Hrun.
Qed.

Lemma C5_error_passed_through_witness :
  valid_port (port samsung_tv) /\
  sendCommands samsung_tv third_refused ["A"; "B"; "C"; "D"; "E"] initial_world
  = (Rejected ECONNREFUSED,
     snd (sendCommands samsung_tv third_refused ["A"; "B"; "C"; "D"; "E"]
            initial_world)) /\
  exists pre key post,
    ["A"; "B"; "C"; "D"; "E"] = pre ++ key :: post /\ is_send key.
Proof.
  assert (H : sendCommands samsung_tv third_refused ["A"; "B"; "C"; "D"; "E"]
                initial_world
              = (Rejected ECONNREFUSED,
                 snd (sendCommands samsung_tv third_refused
                        ["A"; "B"; "C"; "D"; "E"] initial_world)))
    by (vm_compute; reflexivity).
  assert (Hport : valid_port (port samsung_tv))
    by (unfold valid_port; cbn; lia).
  split; [exact Hport|]. split; [exact H|].
  destruct (C5_error_passed_through samsung_tv third_refused _ Hport _ _ _ H)
    as (pre & key & post & w1 & E & _ & Hs & _).
  exists pre, key, post. split; assumption.
Defined.

(** ** The footprint of one token *)

Section Footprint.

Variable this : LIRCController.
Variable net : network.

Lemma send_writes (key : string) (w : world) :
  writes (added w (snd (send_result this net key w)))
  = match net (sockets w) with
    | Connects _ _ => [(sockets w, request this key)]
    | _ => []
    end.
Proof.
  unfold send_result.
  destruct (net (sockets w)) as [latency [[after e]|]|latency e|];
    [destruct (Z.of_N after <? timer_ms (Num (delay this)))| | |];
    (erewrite added_app by (cbn [snd trace]; reflexivity)); reflexivity.
Qed.

Lemma send_network_ops (key : string) (w : world) :
  network_ops (added w (snd (send_result this net key w)))
  = match net (sockets w) with
    | Connects _ _ =>
        [Connect (sockets w) (host this) (port this);
         Write (sockets w) (request this key);
         End_ (sockets w)]
    | _ => [Connect (sockets w) (host this) (port this)]
    end.
Proof.
  unfold send_result.
  destruct (net (sockets w)) as [latency [[after e]|]|latency e|];
    [destruct (Z.of_N after <? timer_ms (Num (delay this)))| | |];
    (erewrite added_app by (cbn [snd trace]; reflexivity)); reflexivity.
Qed.

Lemma send_timers (key : string) (w : world) :
  timers (added w (snd (send_result this net key w)))
  = match net (sockets w) with
    | Connects _ _ => [Num (delay this)]
    | _ => []
    end.
Proof.
  unfold send_result.
  destruct (net (sockets w)) as [latency [[after e]|]|latency e|];
    [destruct (Z.of_N after <? timer_ms (Num (delay this)))| | |];
    (erewrite added_app by (cbn [snd trace]; reflexivity)); reflexivity.
Qed.

Lemma delay_added (key : string) (ms : Number) (w : world) :
  added w (after_delay key ms w)
  = [(now w, Call key); (now w, LogInfo (Delaying ms)); (now w, SetTimeout ms)].
Proof. apply added_app. reflexivity. Qed.

(** What one token writes, and where its run leaves the socket counter. *)
Lemma onFulfilled_writes (key : string) (w : world) :
  let w' := snd (onFulfilled this net key w) in
  (writes (added w w') = [] \/
   is_send key /\ writes (added w w') = [(sockets w, request this key)] /\
   sockets w' = S (sockets w)).
Proof.
  destruct (JS.startsWith key DELAY_INDENTIFIER) eqn:Hp; cbn zeta.
  - left. rewrite (onFulfilled_delay this net key w Hp). cbn [snd].
    rewrite delay_added. reflexivity.
  - rewrite (onFulfilled_send this net key w Hp), send_writes, send_result_sockets.
    destruct (net (sockets w)); [right; repeat split; assumption|left|left];
      reflexivity.
Qed.

End Footprint.

(** Across a whole run, every string written is the request of a [Send]
    token of the sequence, and no socket is written to twice. *)
Lemma sendCommands_writes (this : LIRCController) (net : network)
    (keys : list string) :
  forall w,
    let w' := snd (sendCommands this net keys w) in
    Forall (fun cw =>
              (sockets w <= fst cw)%nat /\
              exists key, In key keys /\ is_send key /\ snd cw = request this key)
           (writes (added w w')) /\
    NoDup (map fst (writes (added w w'))).
Proof.
  induction keys as [|k ks IH]; intros w; cbn zeta.
  - rewrite sendCommands_nil. cbn [snd]. unfold added. rewrite skipn_all.
    split; constructor.
  - rewrite sendCommands_cons. unfold then_.
    destruct (onFulfilled_extends this net k w) as (r1 & E1 & _).
    pose proof (onFulfilled_writes this net k w) as Hw. cbn zeta in Hw.
    destruct (onFulfilled this net k w) as [[|e|] w1] eqn:Hk; cbn [snd] in *.
    + destruct (sendCommands_extends this net ks w1) as (r2 & n & E2 & _).
      specialize (IH w1). cbn zeta in IH. destruct IH as [IHf IHn].
      set (w' := snd (sendCommands this net ks w1)) in *.
      rewrite (added_app w1 w' r2 (ext_trace _ _ _ E2)) in IHf, IHn.
      rewrite (added_app w w1 r1 (ext_trace _ _ _ E1)) in Hw.
      rewrite (added_app w w' (r1 ++ r2)).
      2:{ rewrite (ext_trace _ _ _ E2), (ext_trace _ _ _ E1), app_assoc.
          reflexivity. }
      rewrite writes_app.
      assert (IHf' : Forall (fun cw =>
                (sockets w1 <= fst cw)%nat /\
                exists key, In key (k :: ks) /\ is_send key /\
                            snd cw = request this key) (writes r2)).
      { eapply Forall_impl; [|exact IHf]. cbn beta.
        intros cw (Hle & key & Hin & Hs & Hreq). split; [exact Hle|].
        exists key. split; [right; exact Hin|split; assumption]. }
      pose proof (ext_sockets_le _ _ _ E1) as Hle1.
      destruct Hw as [Hw|(Hs & Hw & Hsock)]; rewrite Hw; cbn [app map].
      * split; [|exact IHn].
        eapply Forall_impl; [|exact IHf']. cbn beta.
        intros cw (Hle & Hex). split; [lia|exact Hex].
      * split.
        -- constructor.
           ++ split; [cbn [fst]; lia|].
              exists k. split; [left; reflexivity|split; [exact Hs|reflexivity]].
           ++ eapply Forall_impl; [|exact IHf']. cbn beta.
              intros cw (Hle & Hex). split; [lia|exact Hex].
        -- constructor; [|exact IHn]. cbn [fst]. intros Hin.
           apply in_map_iff in Hin. destruct Hin as (cw & Hfst & Hin).
           rewrite Forall_forall in IHf. destruct (IHf cw Hin) as (Hle & _).
           lia.
    + rewrite (added_app w w1 r1 (ext_trace _ _ _ E1)) in *.
      destruct Hw as [Hw|(Hs & Hw & Hsock)]; rewrite Hw; cbn [map].
      * split; constructor.
      * split; repeat constructor; cbn [fst snd]; try lia.
        -- exists k. split; [left; reflexivity|split; [exact Hs|reflexivity]].
        -- intros [].
    + rewrite (added_app w w1 r1 (ext_trace _ _ _ E1)) in *.
      destruct Hw as [Hw|(Hs & Hw & Hsock)]; rewrite Hw; cbn [map].
      * split; constructor.
      * split; repeat constructor; cbn [fst snd]; try lia.
        -- exists k. split; [left; reflexivity|split; [exact Hs|reflexivity]].
        -- intros [].
Qed.

(** ** Bytes on the wire *)

Lemma utf8_ascii (s : string) :
  is_ascii s -> utf8_bytes s = map code_unit (list_ascii_of_string s).
Proof.
  unfold is_ascii. induction s as [|c s IH]; cbn [utf8_bytes list_ascii_of_string map].
  - reflexivity.
  - intros H. inversion H as [|? ? Hc Hs]; subst.
    apply Z.ltb_lt in Hc. rewrite Hc, (IH Hs). reflexivity.
Qed.

Lemma is_ascii_app (a b : string) :
  is_ascii a -> is_ascii b -> is_ascii (a ++ b)%string.
Proof.
  unfold is_ascii. induction a as [|c a IH]; cbn [append list_ascii_of_string].
  - intros _ H. exact H.
  - intros Ha Hb. inversion Ha; subst. constructor; [assumption|].
    now apply IH.
Qed.

Lemma is_ascii_request (this : LIRCController) (key : string) :
  is_ascii (remote this) -> is_ascii key -> is_ascii (request this key).
Proof.
  intros Hr Hk. unfold request.
  repeat apply is_ascii_app; try assumption;
    unfold is_ascii; repeat constructor.
Qed.

(** C3.  A [Send] token whose socket connects writes one string to that
    socket, the request ["SEND_ONCE <remote> <key>"] followed by CR LF, and
    nothing when the socket does not connect.  With an ASCII remote and key
    the bytes sent are the characters of that string.  Over a whole run
    every string written is such a request for a [Send] token of the
    sequence, and no socket is written to twice. *)
Theorem C3_request (this : LIRCController) (net : network)
    (key : string) (keys : list string) (w : world) :
  is_send key ->
  writes (added w (snd (onFulfilled this net key w)))
  = match net (sockets w) with
    | Connects _ _ =>
        [(sockets w, ("SEND_ONCE " ++ remote this ++ " " ++ key ++ CRLF)%string)]
    | _ => []
    end /\
  (is_ascii (remote this) -> is_ascii key ->
   utf8_bytes ("SEND_ONCE " ++ remote this ++ " " ++ key ++ CRLF)%string
   = map code_unit
       (list_ascii_of_string
          ("SEND_ONCE " ++ remote this ++ " " ++ key ++ CRLF)%string)) /\
  Forall (fun cw =>
            exists k, In k keys /\ is_send k /\
              snd cw = ("SEND_ONCE " ++ remote this ++ " " ++ k ++ CRLF)%string)
         (writes (added w (snd (sendCommands this net keys w)))) /\
  NoDup (map fst (writes (added w (snd (sendCommands this net keys w))))).
Proof.
  intros Hs. split; [|split].
  - rewrite (onFulfilled_send this net key w Hs). apply send_writes.
  - intros Hr Hk. apply utf8_ascii. apply (is_ascii_request this key Hr Hk).
  - destruct (sendCommands_writes this net keys w) as [Hf Hn].
    split; [|exact Hn].
    eapply Forall_impl; [|exact Hf]. cbn beta. intros cw [_ Hex]. exact Hex.
Qed.

Lemma C3_request_witness :
  is_send "KEY_POWER" /\
  writes (added initial_world
            (snd (onFulfilled samsung_tv reachable "KEY_POWER" initial_world)))
  = [(0%nat, ("SEND_ONCE samsung KEY_POWER" ++ CRLF)%string)] /\
  utf8_bytes ("SEND_ONCE samsung KEY_POWER" ++ CRLF)%string
  = [83; 69; 78; 68; 95; 79; 78; 67; 69; 32;
     115; 97; 109; 115; 117; 110; 103; 32;
     75; 69; 89; 95; 80; 79; 87; 69; 82; 13; 10].
Proof.
  assert (Hs : is_send "KEY_POWER") by reflexivity.
  destruct (C3_request samsung_tv reachable "KEY_POWER" ["KEY_POWER"]
              initial_world Hs) as (Hw & Hb & _).
  split; [exact Hs|]. split; [exact Hw|].
  assert (Hr : is_ascii (remote samsung_tv))
    by (unfold is_ascii; repeat constructor).
  assert (Hk : is_ascii "KEY_POWER")
    by (unfold is_ascii; repeat constructor).
  etransitivity; [exact (Hb Hr Hk)|reflexivity].
Defined.

(** C6.  The footprint of one token.  A token with the prefix performs no
    socket operation and arms one timer, with the parsed count.  A token
    without it opens one socket, the next unused one; when the socket
    connects the token writes its request to it, ends it, and arms one
    timer, with the configured delay; otherwise nothing is written and no
    timer is armed.  In a run from the start of the process the sockets
    opened are numbered 0, 1, 2, ...: none is opened twice. *)
Theorem C6_token_footprint (this : LIRCController) (net : network)
    (key : string) (keys : list string) (w : world) :
  network_ops (added w (snd (onFulfilled this net key w)))
  = (if JS.startsWith key DELAY_INDENTIFIER then []
     else match net (sockets w) with
          | Connects _ _ =>
              [Connect (sockets w) (host this) (port this);
               Write (sockets w) (request this key);
               End_ (sockets w)]
          | _ => [Connect (sockets w) (host this) (port this)]
          end) /\
  timers (added w (snd (onFulfilled this net key w)))
  = (if JS.startsWith key DELAY_INDENTIFIER
     then [JS.parseInt (JS.drop 6 key)]
     else match net (sockets w) with
          | Connects _ _ => [Num (delay this)]
          | _ => []
          end) /\
  sockets (snd (onFulfilled this net key w))
  = (if JS.startsWith key DELAY_INDENTIFIER then sockets w else S (sockets w)) /\
  connections (trace (snd (sendCommands this net keys initial_world)))
  = seq 0 (sockets (snd (sendCommands this net keys initial_world))) /\
  NoDup (connections (trace (snd (sendCommands this net keys initial_world)))).
Proof.
  assert (Hconn :
    connections (trace (snd (sendCommands this net keys initial_world)))
    = seq 0 (sockets (snd (sendCommands this net keys initial_world)))).
  { destruct (sendCommands_extends this net keys initial_world)
      as (rest & n & E & _).
    rewrite (ext_trace _ _ _ E).
    change (trace initial_world ++ rest) with rest.
    rewrite (ext_sockets _ _ _ E).
    change (sockets initial_world) with 0%nat.
    now rewrite Nat.sub_0_r. }
  destruct (JS.startsWith key DELAY_INDENTIFIER) eqn:Hp.
  - rewrite (onFulfilled_delay this net key w Hp). cbn [snd].
    rewrite delay_added. repeat split; try reflexivity; [exact Hconn|].
    rewrite Hconn. apply seq_NoDup.
  - rewrite (onFulfilled_send this net key w Hp).
    rewrite send_network_ops, send_timers, send_result_sockets.
    repeat split; try reflexivity; [exact Hconn|].
    rewrite Hconn. apply seq_NoDup.
Qed.

(** ** Waiting *)

Section Waiting.

Variable this : LIRCController.
Variable net : network.

(** A [Send] token whose socket connects: its events up to the timer, then
    at most an error line; when the token is fulfilled the clock stands at
    the moment the timer fires. *)
Lemma send_result_connects (key : string) (w : world) (latency : N)
    (late : option (N * Error)) :
  net (sockets w) = Connects latency late ->
  exists tail,
    trace (snd (send_result this net key w))
    = trace w ++ send_events this key (sockets w) (now w) latency ++ tail /\
    Forall (fun te => begins (snd te) = false) tail /\
    (fst (send_result this net key w) = Fulfilled ->
     now (snd (send_result this net key w))
     = now w + Z.of_N latency + timer_ms (Num (delay this))).
Proof.
  intros Hnet. unfold send_result. rewrite Hnet.
  destruct late as [[after e]|];
    [destruct (Z.of_N after <? timer_ms (Num (delay this)))|];
    cbn [fst snd trace now].
  - eexists. split; [reflexivity|]. split; [repeat constructor|discriminate].
  - eexists. split; [reflexivity|]. split; [repeat constructor|reflexivity].
  - exists []. rewrite app_nil_r. split; [reflexivity|].
    split; [constructor|reflexivity].
Qed.

(** The wait of a fulfilled token: one timer, armed at [t] with the
    token's duration; the token is fulfilled when it fires. *)
Lemma onFulfilled_wait (key : string) (w w2 : world) :
  onFulfilled this net key w = (Fulfilled, w2) ->
  let ms := if JS.startsWith key DELAY_INDENTIFIER
            then JS.parseInt (JS.drop 6 key) else Num (delay this) in
  exists t,
    In (t, SetTimeout ms) (added w w2) /\
    timers (added w w2) = [ms] /\
    now w <= t /\
    now w2 = t + timer_ms ms.
Proof.
  destruct (JS.startsWith key DELAY_INDENTIFIER) eqn:Hp; cbn zeta.
  - rewrite (onFulfilled_delay this net key w Hp). intros [= <-].
    rewrite delay_added. exists (now w).
    split; [right; right; left; reflexivity|].
    split; [reflexivity|]. split; [lia|reflexivity].
  - rewrite (onFulfilled_send this net key w Hp). intros Hres.
    pose proof (send_timers this net key w) as Ht.
    destruct (net (sockets w)) as [latency late|latency e|] eqn:Hnet.
    + destruct (send_result_connects key w latency late Hnet)
        as (tail & Htr & _ & Hnow).
      rewrite Hres in *. cbn [fst snd] in *.
      exists (now w + Z.of_N latency).
      rewrite Ht. split; [|split; [reflexivity|split; [lia|now apply Hnow]]].
      rewrite (added_app w w2 _ Htr). apply in_or_app. left.
      unfold send_events. do 5 right. left. reflexivity.
    + unfold send_result in Hres. rewrite Hnet in Hres. discriminate Hres.
    + unfold send_result in Hres. rewrite Hnet in Hres. discriminate Hres.
Qed.

End Waiting.

Lemma timer_ms_out_of_range (z : Z) :
  z < 1 \/ TIMEOUT_MAX < z -> timer_ms (Num z) = 1.
Proof.
  intros H. unfold timer_ms.
  destruct (1 <=? z) eqn:H1; cbn [andb]; [|reflexivity].
  destruct (z <=? TIMEOUT_MAX) eqn:H2; [|reflexivity].
  apply Z.leb_le in H1, H2. lia.
Qed.

(** C2, as stated, at the sequence ["DELAY|2147483648"; "KEY_1"]: the
    duration of the first token is 2147483648 ms, one above the range of
    the timers, so its timer waits 1 ms, and the second token is called at
    time 1, long before that duration has elapsed. *)
Lemma C2_counterexample :
  wait_of samsung_tv "DELAY|2147483648" = Num 2147483648 /\
  In (1, Call "KEY_1")
     (trace (snd (sendCommands samsung_tv reachable
                    ["DELAY|2147483648"; "KEY_1"] initial_world))) /\
  ~ (forall (this : LIRCController) (net : network) (key : string)
            (post : list string) (w w2 : world) (z : Z),
       onFulfilled this net key w = (Fulfilled, w2) ->
       wait_of this key = Num z ->
       Forall (fun te => now w + z <= fst te)
              (added w2 (snd (sendCommands this net post w2)))).
Proof.
  split; [reflexivity|]. split; [vm_compute; right; right; right; left; reflexivity|].
  intros H.
  specialize (H samsung_tv reachable "DELAY|2147483648" ["KEY_1"]
                initial_world _ 2147483648 eq_refl eq_refl).
  apply Forall_inv in H. vm_compute in H. apply H. reflexivity.
Qed.

(** C2, amended.  Tokens run in list order, each when the timer of the one
    before fires.  Take the chain at a token [key] reached with the tokens
    [pre] before it fulfilled.  The calls recorded for the whole sequence
    are those of [pre], of [key] and of a prefix of the tokens [post]
    after it, all of them when the run is fulfilled.  If [key] is not
    fulfilled the chain ends with it.  If it is, it armed one timer, at a
    time [t]: with the configured delay for a [Send], with the integer
    that follows the prefix for a [Delay] whose remainder is a base-10
    integer up to 2^53.  The timer waits that duration when it is between
    1 and 2^31-1, and 1 ms when it is not or is [NaN].  The token is
    fulfilled when the timer fires, and every event of the tokens after it
    bears that instant or a later one, on the clock of the model, where a
    timer fires its wait after it is armed. *)
Theorem C2_order (this : LIRCController) (net : network)
    (pre : list string) (key : string) (post : list string) (w w1 : world) :
  sendCommands this net pre w = (Fulfilled, w1) ->
  let run := sendCommands this net (pre ++ key :: post) w in
  (exists n,
     calls (added w (snd run)) = pre ++ key :: firstn n post /\
     (fst run = Fulfilled -> n = List.length post)) /\
  (fst (onFulfilled this net key w1) <> Fulfilled ->
   run = onFulfilled this net key w1) /\
  (forall w2, onFulfilled this net key w1 = (Fulfilled, w2) ->
     exists t ms rest,
       In (t, SetTimeout ms) (added w1 w2) /\
       timers (added w1 w2) = [ms] /\
       (is_send key -> ms = Num (delay this)) /\
       (forall r n,
          key = (DELAY_INDENTIFIER ++ r)%string ->
          decimal_value r = Some n -> n <= EXACT_MAX -> ms = Num n) /\
       (forall z, ms = Num z -> 1 <= z <= TIMEOUT_MAX -> timer_ms ms = z) /\
       (forall z, ms = Num z -> z < 1 \/ TIMEOUT_MAX < z -> timer_ms ms = 1) /\
       (ms = NaN -> timer_ms ms = 1) /\
       now w2 = t + timer_ms ms /\
       trace (snd run) = trace w2 ++ rest /\
       Forall (fun te => t + timer_ms ms <= fst te) rest).
Proof.
  intros Hpre run.
  assert (Hrun : run = then_ (onFulfilled this net key)
                         (fun _ => sendCommands this net post) w1).
  { unfold run. rewrite sendCommands_app. unfold then_ at 1. rewrite Hpre.
    apply sendCommands_cons. }
  destruct (sendCommands_fulfilled this net pre w w1 Hpre) as (r1 & E1 & C1).
  destruct (onFulfilled_extends this net key w1) as (r2 & E2 & C2).
  unfold then_ in Hrun.
  destruct (onFulfilled this net key w1) as [[|e|] w2] eqn:Hk; cbn [fst snd] in *.
  - destruct (sendCommands_extends this net post w2) as (r3 & n & E3 & C3 & F3).
    split; [|split].
    + exists n. rewrite Hrun. split; [|exact F3].
      rewrite (added_app w _ (r1 ++ r2 ++ r3)).
      * rewrite !calls_app, C1, C2, C3. reflexivity.
      * rewrite (ext_trace _ _ _ E3), (ext_trace _ _ _ E2), (ext_trace _ _ _ E1).
        now rewrite <- !app_assoc.
    + intros N. now elim N.
    + intros w2' [= <-].
      destruct (onFulfilled_wait this net key w1 w2 Hk) as (t & Hin & Ht & _ & Hnow).
      cbn zeta in Hin, Ht, Hnow.
      set (ms := if JS.startsWith key DELAY_INDENTIFIER
                 then JS.parseInt (JS.drop 6 key) else Num (delay this)) in *.
      assert (Hlater : Forall (fun te => t + timer_ms ms <= fst te) r3)
        by (rewrite <- Hnow; apply (ext_times _ _ _ E3)).
      exists t, ms, r3. rewrite Hrun.
      split; [exact Hin|]. split; [exact Ht|].
      split; [|split; [|split; [|split; [|split; [|split; [|split]]]]]].
      * unfold is_send. intros Hs. unfold ms. now rewrite Hs.
      * intros r k -> Hk' _. unfold ms.
        unfold JS.startsWith. rewrite prefix_append.
        change 6%nat with (String.length DELAY_INDENTIFIER).
        rewrite drop_append. apply (parseInt_decimal r k Hk').
      * intros z -> Hz. apply timer_ms_in_range, Hz.
      * intros z -> Hz. apply timer_ms_out_of_range, Hz.
      * intros ->. reflexivity.
      * exact Hnow.
      * apply (ext_trace _ _ _ E3).
      * exact Hlater.
  - split; [|split].
    + exists 0%nat. rewrite Hrun. cbn [fst snd]. split; [|discriminate].
      rewrite (added_app w w2 (r1 ++ r2)).
      * rewrite calls_app, C1, C2. reflexivity.
      * rewrite (ext_trace _ _ _ E2), (ext_trace _ _ _ E1).
        now rewrite <- app_assoc.
    + intros _. exact Hrun.
    + intros w2' [=].
  - split; [|split].
    + exists 0%nat. rewrite Hrun. cbn [fst snd]. split; [|discriminate].
      rewrite (added_app w w2 (r1 ++ r2)).
      * rewrite calls_app, C1, C2. reflexivity.
      * rewrite (ext_trace _ _ _ E2), (ext_trace _ _ _ E1).
        now rewrite <- app_assoc.
    + intros _. exact Hrun.
    + intros w2' [=].
Qed.

Lemma C2_order_witness :
  sendCommands samsung_tv reachable ["KEY_1"] initial_world
  = (Fulfilled, snd (sendCommands samsung_tv reachable ["KEY_1"] initial_world)) /\
  exists n,
    calls (added initial_world
             (snd (sendCommands samsung_tv reachable
                     (["KEY_1"] ++ "DELAY|250" :: ["KEY_2"]) initial_world)))
    = ["KEY_1"] ++ "DELAY|250" :: firstn n ["KEY_2"] /\
    (fst (sendCommands samsung_tv reachable
            (["KEY_1"] ++ "DELAY|250" :: ["KEY_2"]) initial_world) = Fulfilled ->
     n = List.length ["KEY_2"]).
Proof.
  split; [reflexivity|].
  exact (proj1 (C2_order samsung_tv reachable ["KEY_1"] "DELAY|250" ["KEY_2"]
                  initial_world _ eq_refl)).
Defined.

(** C7, as stated, with a configured delay of 2147483648 ms, one above the
    range of the timers, and two [Send] tokens: the first request is
    written at time 2 and the second socket is opened at time 3, one
    millisecond later, not the configured delay later. *)
Lemma C7_counterexample :
  In (2, Write 0 (request slow_tv "KEY_1"))
     (trace (snd (sendCommands slow_tv reachable ["KEY_1"; "KEY_2"] initial_world))) /\
  In (3, Connect 1 (host slow_tv) (port slow_tv))
     (trace (snd (sendCommands slow_tv reachable ["KEY_1"; "KEY_2"] initial_world))) /\
  3 - 2 < delay slow_tv /\
  ~ (forall (this : LIRCController) (net : network) (k1 k2 : string) (tw tc : Z),
       is_send k1 -> is_send k2 ->
       In (tw, Write 0 (request this k1))
          (trace (snd (sendCommands this net [k1; k2] initial_world))) ->
       In (tc, Connect 1 (host this) (port this))
          (trace (snd (sendCommands this net [k1; k2] initial_world))) ->
       tw + delay this <= tc).
Proof.
  assert (Hw : In (2, Write 0%nat (request slow_tv "KEY_1"))
                 (trace (snd (sendCommands slow_tv reachable ["KEY_1"; "KEY_2"]
                                initial_world))))
    by (vm_compute; do 3 right; left; reflexivity).
  assert (Hc : In (3, Connect 1 (host slow_tv) (port slow_tv))
                 (trace (snd (sendCommands slow_tv reachable ["KEY_1"; "KEY_2"]
                                initial_world))))
    by (vm_compute; do 7 right; left; reflexivity).
  split; [exact Hw|]. split; [exact Hc|]. split; [reflexivity|].
  intros H.
  specialize (H slow_tv reachable "KEY_1" "KEY_2" 2 3 eq_refl eq_refl Hw Hc).
  vm_compute in H. apply H. reflexivity.
Qed.

(** C7, amended.  After a [Send] token has written its request the chain
    goes on when the timer armed with the configured delay fires.  Take a
    [Send] token reached with the tokens before it fulfilled, on a socket
    that connects after [latency] ms.  The trace of the whole sequence
    continues with the events of that token: the call and the socket
    opened, then, all at the time of the connection, the log line, the
    write, the end of the socket and the timer armed with the configured
    delay: the token does not wait for the socket to close.  The timer
    waits the configured delay when it is between 1 and 2^31-1, and 1 ms
    when it is not.  Every later event by which a token begins something (a
    call, a socket opened, a timer armed) bears the instant at which that
    timer fires or a later one, on the clock of the model, where a timer
    fires its wait after it is armed. *)
Theorem C7_settle_delay (this : LIRCController) (net : network)
    (pre : list string) (key : string) (post : list string) (w w1 : world)
    (latency : N) (late : option (N * Error)) :
  sendCommands this net pre w = (Fulfilled, w1) ->
  is_send key ->
  net (sockets w1) = Connects latency late ->
  let written := now w1 + Z.of_N latency in
  exists rest,
    trace (snd (sendCommands this net (pre ++ key :: post) w))
    = trace w1 ++ send_events this key (sockets w1) (now w1) latency ++ rest /\
    In (written, Write (sockets w1) (request this key))
       (send_events this key (sockets w1) (now w1) latency) /\
    In (written, SetTimeout (Num (delay this)))
       (send_events this key (sockets w1) (now w1) latency) /\
    (1 <= delay this <= TIMEOUT_MAX -> timer_ms (Num (delay this)) = delay this) /\
    (delay this < 1 \/ TIMEOUT_MAX < delay this ->
     timer_ms (Num (delay this)) = 1) /\
    Forall (fun te => begins (snd te) = true ->
                      written + timer_ms (Num (delay this)) <= fst te) rest.
Proof.
  intros Hpre Hs Hnet written.
  assert (Hrun : sendCommands this net (pre ++ key :: post) w
                 = then_ (onFulfilled this net key)
                     (fun _ => sendCommands this net post) w1).
  { rewrite sendCommands_app. unfold then_ at 1. rewrite Hpre.
    apply sendCommands_cons. }
  rewrite Hrun. unfold then_. rewrite (onFulfilled_send this net key w1 Hs).
  destruct (send_result_connects this net key w1 latency late Hnet)
    as (tail & Htr & Htail & Hnow).
  assert (Htail' : Forall (fun te => begins (snd te) = true ->
                      written + timer_ms (Num (delay this)) <= fst te) tail).
  { eapply Forall_impl; [|exact Htail]. cbn beta. intros te Hf Hb. congruence. }
  assert (Hw : In (written, Write (sockets w1) (request this key))
                 (send_events this key (sockets w1) (now w1) latency))
    by (unfold send_events; do 3 right; left; reflexivity).
  assert (Ht : In (written, SetTimeout (Num (delay this)))
                 (send_events this key (sockets w1) (now w1) latency))
    by (unfold send_events; do 5 right; left; reflexivity).
  pose proof (timer_ms_in_range (delay this)) as Hin.
  pose proof (timer_ms_out_of_range (delay this)) as Hout.
  destruct (send_result this net key w1) as [[|e|] w2]; cbn [fst snd] in *.
  - destruct (sendCommands_extends this net post w2) as (r3 & n & E3 & _).
    exists (tail ++ r3). split.
    { rewrite (ext_trace _ _ _ E3), Htr. now rewrite <- !app_assoc. }
    assert (Hall : Forall (fun te => begins (snd te) = true ->
                     written + timer_ms (Num (delay this)) <= fst te) (tail ++ r3)).
    { apply Forall_app. split; [exact Htail'|].
      eapply Forall_impl; [|exact (ext_times _ _ _ E3)]. cbn beta.
      intros te Hte _. rewrite (Hnow eq_refl) in Hte. exact Hte. }
    repeat split; auto.
  - exists tail. repeat split; auto.
  - exists tail. repeat split; auto.
Qed.

(** A delay of 100 ms and two [Send] tokens: the second socket is opened
    when the timer armed at the first write fires. *)
Lemma C7_settle_delay_witness :
  sendCommands samsung_tv reachable [] initial_world = (Fulfilled, initial_world) /\
  is_send "KEY_1" /\
  reachable (sockets initial_world) = Connects 2 None /\
  exists rest,
    trace (snd (sendCommands samsung_tv reachable ["KEY_1"; "KEY_2"] initial_world))
    = send_events samsung_tv "KEY_1" 0 0 2 ++ rest /\
    Forall (fun te => begins (snd te) = true ->
                      2 + timer_ms (Num 100) <= fst te) rest /\
    In (2 + timer_ms (Num 100), Connect 1 (host samsung_tv) (port samsung_tv)) rest.
Proof.
  assert (H1 : sendCommands samsung_tv reachable [] initial_world
               = (Fulfilled, initial_world)) by reflexivity.
  assert (H2 : is_send "KEY_1") by reflexivity.
  assert (H3 : reachable (sockets initial_world) = Connects 2 None) by reflexivity.
  repeat (split; [assumption|]).
  destruct (C7_settle_delay samsung_tv reachable [] "KEY_1" ["KEY_2"]
              initial_world initial_world 2 None H1 H2 H3)
    as (rest & Htr & _ & _ & _ & _ & Hall).
  exists rest. split; [exact Htr|]. split; [exact Hall|].
  cbn [app] in Htr. vm_compute in Htr.
  injection Htr as <-. vm_compute. right. left. reflexivity.
Defined.

(** ** Examples *)

Example parseInt_250 : JS.parseInt "250" = Num 250.
Proof. reflexivity. Qed.

Example parseInt_empty : JS.parseInt "" = NaN.
Proof. reflexivity. Qed.

Example parseInt_abc : JS.parseInt "abc" = NaN.
Proof. reflexivity. Qed.

Example parseInt_hex : JS.parseInt "0x10" = Num 16.
Proof. reflexivity. Qed.

Example parseInt_radix10_hex : JS.parseInt_radix "0x10" 10 = Num 0.
Proof. reflexivity. Qed.

Example parseInt_signed : JS.parseInt "  -42" = Num (-42).
Proof. reflexivity. Qed.

Example replace_first_only :
  JS.replace "DELAY|DELAY|5" DELAY_INDENTIFIER "" = "DELAY|5".
Proof. reflexivity. Qed.

(** ["DELAY|250"]: a wait of 250 ms, no socket. *)
Example delay_250 :
  sendCommands samsung_tv unreachable ["DELAY|250"] initial_world
  = (Fulfilled,
     mkWorld 250 0
       [(0, Call "DELAY|250");
        (0, LogInfo (Delaying (Num 250)));
        (0, SetTimeout (Num 250))]).
Proof. reflexivity. Qed.

(** ["POWER_ON"]: one socket, one request, the configured delay. *)
Example power_on :
  sendCommands samsung_tv reachable ["POWER_ON"] initial_world
  = (Fulfilled,
     mkWorld 102 1
       [(0, Call "POWER_ON");
        (0, Connect 0 "192.168.1.20" 8765);
        (2, LogInfo (Sending "SEND_ONCE samsung POWER_ON"));
        (2, Write 0 ("SEND_ONCE samsung POWER_ON" ++ CRLF)%string);
        (2, End_ 0);
        (2, SetTimeout (Num 100))]).
Proof. reflexivity. Qed.

(** The third of five [Send] tokens fails: the fourth and fifth are never
    called. *)
Example third_of_five :
  let r := sendCommands samsung_tv third_refused ["A"; "B"; "C"; "D"; "E"]
             initial_world in
  fst r = Rejected ECONNREFUSED /\
  calls (trace (snd r)) = ["A"; "B"; "C"] /\
  connections (trace (snd r)) = [0; 1; 2]%nat /\
  map fst (writes (trace (snd r))) = [0; 1]%nat.
Proof. vm_compute. repeat split; reflexivity. Qed.

(** A socket that never answers leaves the run pending for ever. *)
Example hung_daemon :
  fst (sendCommands samsung_tv (fun _ => Hangs) ["A"; "B"] initial_world) = Pending.
Proof. reflexivity. Qed.

(** ** Whole runs *)

Lemma destinations_app (a b : list (Z * event)) :
  destinations (a ++ b) = destinations a ++ destinations b.
Proof.
  induction a as [|[t e] a IH]; simpl; [reflexivity|].
  destruct e; simpl; now rewrite IH.
Qed.

Lemma added_trans (w w1 w2 : world) (r1 r2 : list (Z * event)) :
  extends w w1 r1 -> extends w1 w2 r2 ->
  added w w1 = r1 /\ added w1 w2 = r2 /\ added w w2 = r1 ++ r2.
Proof.
  intros E1 E2. split; [|split].
  - apply added_app, (ext_trace _ _ _ E1).
  - apply added_app, (ext_trace _ _ _ E2).
  - apply added_app.
    rewrite (ext_trace _ _ _ E2), (ext_trace _ _ _ E1). now rewrite app_assoc.
Qed.

Section WholeRuns.

Variable this : LIRCController.
Variable net : network.

(** One step of the chain: the first token is fulfilled and the chain goes
    on from the state it leaves, or it is not and the chain ends there. *)
Lemma sendCommands_step (k : string) (ks : list string) (w : world) :
  (exists w1,
     onFulfilled this net k w = (Fulfilled, w1) /\
     sendCommands this net (k :: ks) w = sendCommands this net ks w1 /\
     added w (snd (sendCommands this net ks w1))
     = added w w1 ++ added w1 (snd (sendCommands this net ks w1))) \/
  (fst (onFulfilled this net k w) <> Fulfilled /\
   sendCommands this net (k :: ks) w = onFulfilled this net k w).
Proof.
  rewrite sendCommands_cons. unfold then_.
  destruct (onFulfilled_extends this net k w) as (r1 & E1 & _).
  destruct (onFulfilled this net k w) as [[|e|] w1] eqn:Hk; cbn [fst snd] in *.
  - left. exists w1. repeat split.
    destruct (sendCommands_extends this net ks w1) as (r2 & n & E2 & _).
    destruct (added_trans _ _ _ _ _ E1 E2) as (-> & -> & ->). reflexivity.
  - right. split; [discriminate|reflexivity].
  - right. split; [discriminate|reflexivity].
Qed.

(** What a fulfilled token has left in the trace. *)
Lemma onFulfilled_fulfilled (key : string) (w w1 : world) :
  onFulfilled this net key w = (Fulfilled, w1) ->
  calls (added w w1) = [key] /\
  timers (added w w1) = [wait_of this key] /\
  now w + timer_ms (wait_of this key) <= now w1 /\
  (if JS.startsWith key DELAY_INDENTIFIER
   then writes (added w w1) = [] /\
        connections (added w w1) = [] /\
        sockets w1 = sockets w /\
        now w1 = now w + timer_ms (wait_of this key)
   else writes (added w w1) = [(sockets w, request this key)] /\
        connections (added w w1) = [sockets w] /\
        sockets w1 = S (sockets w) /\
        exists latency late, net (sockets w) = Connects latency late).
Proof.
  intros Hk. unfold wait_of.
  destruct (onFulfilled_wait this net key w w1 Hk) as (t & _ & Ht & Hle & Hnow).
  cbn zeta in Ht, Hnow.
  destruct (onFulfilled_extends this net key w) as (r & E & Hc).
  rewrite Hk in E. cbn [snd] in E.
  rewrite (added_app w w1 r (ext_trace _ _ _ E)) in *.
  split; [exact Hc|]. split; [exact Ht|]. split; [lia|].
  destruct (JS.startsWith key DELAY_INDENTIFIER) eqn:Hp.
  - rewrite (onFulfilled_delay this net key w Hp) in Hk.
    injection Hk as <-.
    pose proof (delay_added key (JS.parseInt (JS.drop 6 key)) w) as Ha.
    rewrite (added_app _ _ r (ext_trace _ _ _ E)) in Ha. subst r.
    repeat split; reflexivity.
  - rewrite (onFulfilled_send this net key w Hp) in Hk.
    pose proof (send_writes this net key w) as Hw.
    pose proof (send_result_sockets this net key w) as Hs.
    rewrite Hk in Hw, Hs. cbn [snd] in Hw, Hs.
    rewrite (added_app w w1 r (ext_trace _ _ _ E)) in Hw.
    pose proof (ext_sockets _ _ _ E) as Hconn.
    rewrite Hs in Hconn.
    replace (S (sockets w) - sockets w)%nat with 1%nat in Hconn by lia.
    destruct (net (sockets w)) as [latency late|latency e|] eqn:Hnet.
    + repeat split; try assumption. eauto.
    + unfold send_result in Hk. rewrite Hnet in Hk. discriminate Hk.
    + unfold send_result in Hk. rewrite Hnet in Hk. discriminate Hk.
Qed.

End WholeRuns.

(** X1.  Sequences compose: running [xs ++ ys] is running [xs] and, when it
    is fulfilled, running [ys] from the state it has left; when [xs] is
    rejected or stays pending, that is the result and [ys] is not run. *)
Theorem sendCommands_compose (this : LIRCController) (net : network)
    (xs ys : list string) (w : world) :
  sendCommands this net (xs ++ ys) w
  = match sendCommands this net xs w with
    | (Fulfilled, w1) => sendCommands this net ys w1
    | (Rejected error, w1) => (Rejected error, w1)
    | (Pending, w1) => (Pending, w1)
    end.
Proof.
  rewrite sendCommands_app. unfold then_.
  destruct (sendCommands this net xs w) as [[|e|] w1]; reflexivity.
Qed.

(** X2.  No timeout: when the chain reaches a [Send] token whose socket
    never answers, the run stays pending for ever.  The socket has been
    opened, nothing was written, no timer is armed, no error is logged, the
    clock of the chain stands still, and the tokens after it change
    nothing. *)
Theorem hung_socket_stalls (this : LIRCController) (net : network)
    (pre : list string) (key : string) (post : list string) (w w1 : world) :
  sendCommands this net pre w = (Fulfilled, w1) ->
  is_send key ->
  net (sockets w1) = Hangs ->
  sendCommands this net (pre ++ key :: post) w
  = (Pending,
     mkWorld (now w1) (S (sockets w1))
       (trace w1 ++ [(now w1, Call key);
                     (now w1, Connect (sockets w1) (host this) (port this))])) /\
  sendCommands this net (pre ++ key :: post) w
  = sendCommands this net (pre ++ [key]) w.
Proof.
  intros Hpre Hs Hnet.
  assert (Hcut : forall ks,
            sendCommands this net (pre ++ key :: ks) w
            = (Pending,
               mkWorld (now w1) (S (sockets w1))
                 (trace w1 ++ [(now w1, Call key);
                               (now w1, Connect (sockets w1) (host this) (port this))]))).
  { intros ks. rewrite sendCommands_app. unfold then_ at 1. rewrite Hpre.
    rewrite sendCommands_cons. unfold then_.
    rewrite (onFulfilled_send this net key w1 Hs). unfold send_result.
    rewrite Hnet. reflexivity. }
  split; [apply Hcut|]. now rewrite !Hcut.
Qed.

Lemma hung_socket_stalls_witness :
  sendCommands samsung_tv (fun n => if Nat.eqb n 1 then Hangs else Connects 2 None)
    ["A"] initial_world
  = (Fulfilled,
     snd (sendCommands samsung_tv
            (fun n => if Nat.eqb n 1 then Hangs else Connects 2 None)
            ["A"] initial_world)) /\
  is_send "B" /\
  fst (sendCommands samsung_tv
         (fun n => if Nat.eqb n 1 then Hangs else Connects 2 None)
         (["A"] ++ "B" :: ["C"]) initial_world) = Pending.
Proof.
  split; [reflexivity|]. split; [reflexivity|].
  rewrite (proj1 (hung_socket_stalls samsung_tv
                    (fun n => if Nat.eqb n 1 then Hangs else Connects 2 None)
                    ["A"] "B" ["C"] initial_world _ eq_refl eq_refl eq_refl)).
  reflexivity.
Defined.

(** X3.  An error that comes too late does not fail the run.  When the
    socket of a [Send] token connects and reports its error only when the
    timer armed after the write has fired, or later, the token is
    fulfilled: the message of the error is logged, and the chain goes on
    with the tokens after it. *)
Theorem late_error_is_only_logged (this : LIRCController) (net : network)
    (pre : list string) (key : string) (post : list string) (w w1 : world)
    (latency after : N) (error : Error) :
  sendCommands this net pre w = (Fulfilled, w1) ->
  is_send key ->
  net (sockets w1) = Connects latency (Some (after, error)) ->
  timer_ms (Num (delay this)) <= Z.of_N after ->
  exists w2,
    onFulfilled this net key w1 = (Fulfilled, w2) /\
    errors_logged (added w1 w2) = [message error] /\
    writes (added w1 w2) = [(sockets w1, request this key)] /\
    now w2 = now w1 + Z.of_N latency + timer_ms (Num (delay this)) /\
    sendCommands this net (pre ++ key :: post) w = sendCommands this net post w2.
Proof.
  intros Hpre Hs Hnet Hlate.
  apply Z.ltb_ge in Hlate.
  pose proof (onFulfilled_send this net key w1 Hs) as Hk.
  unfold send_result in Hk. rewrite Hnet, Hlate in Hk.
  eexists. split; [exact Hk|].
  split; [|split; [|split]].
  - erewrite added_app by (cbn [trace]; reflexivity).
    rewrite errors_logged_app. reflexivity.
  - erewrite added_app by (cbn [trace]; reflexivity).
    rewrite writes_app. reflexivity.
  - reflexivity.
  - rewrite sendCommands_app. unfold then_ at 1. rewrite Hpre.
    rewrite sendCommands_cons. unfold then_. rewrite Hk. reflexivity.
Qed.

Lemma late_error_is_only_logged_witness :
  sendCommands samsung_tv (fun _ => Connects 2 (Some (500%N, ECONNREFUSED)))
    [] initial_world = (Fulfilled, initial_world) /\
  is_send "A" /\
  timer_ms (Num (delay samsung_tv)) <= Z.of_N 500 /\
  fst (sendCommands samsung_tv (fun _ => Connects 2 (Some (500%N, ECONNREFUSED)))
         ["A"; "DELAY|5"] initial_world) = Fulfilled.
Proof.
  assert (H4 : timer_ms (Num (delay samsung_tv)) <= Z.of_N 500)
    by (vm_compute; discriminate).
  split; [reflexivity|]. split; [reflexivity|]. split; [exact H4|].
  destruct (late_error_is_only_logged samsung_tv
              (fun _ => Connects 2 (Some (500%N, ECONNREFUSED)))
              [] "A" ["DELAY|5"] initial_world initial_world 2 500 ECONNREFUSED
              eq_refl eq_refl eq_refl H4) as (w2 & _ & _ & _ & _ & Hrun).
  cbn [app] in Hrun. rewrite Hrun. reflexivity.
Defined.

Lemma sends_cons (k : string) (ks : list string) :
  sends (k :: ks)
  = if JS.startsWith k DELAY_INDENTIFIER then sends ks else k :: sends ks.
Proof.
  unfold sends. cbn [filter]. destruct (JS.startsWith k DELAY_INDENTIFIER);
    reflexivity.
Qed.

(** X4.  What a fulfilled run has done.  Every token was called, in list
    order; each armed one timer, with its own duration; the strings written
    are the requests of the [Send] tokens, in list order, each on a socket
    of its own; and as many sockets were opened as there are [Send]
    tokens. *)
Theorem fulfilled_run (this : LIRCController) (net : network)
    (keys : list string) :
  forall w w',
  sendCommands this net keys w = (Fulfilled, w') ->
  calls (added w w') = keys /\
  timers (added w w') = map (wait_of this) keys /\
  writes (added w w')
  = combine (seq (sockets w) (List.length (sends keys)))
            (map (request this) (sends keys)) /\
  connections (added w w') = seq (sockets w) (List.length (sends keys)) /\
  sockets w' = (sockets w + List.length (sends keys))%nat.
Proof.
  induction keys as [|k ks IH]; intros w w' Hrun.
  - rewrite sendCommands_nil in Hrun. injection Hrun as <-.
    unfold added. rewrite skipn_all. cbn. repeat split. lia.
  - destruct (sendCommands_step this net k ks w)
      as [(w1 & Hk & Hgo & Hadd)|(Hno & Hstop)].
    + rewrite Hgo in Hrun. rewrite Hrun in Hadd. cbn [snd] in Hadd.
      destruct (IH w1 w' Hrun) as (Ic & It & Iw & In_ & Is).
      destruct (onFulfilled_fulfilled this net k w w1 Hk) as (Hc & Ht & _ & Hcase).
      rewrite Hadd, calls_app, timers_app, writes_app, connections_app.
      rewrite Hc, Ht, Ic, It, Iw, In_, Is, sends_cons.
      destruct (JS.startsWith k DELAY_INDENTIFIER).
      * destruct Hcase as (-> & -> & -> & _). cbn [app map].
        repeat split; reflexivity.
      * destruct Hcase as (-> & -> & -> & _). cbn [app map List.length seq combine].
        repeat split; try reflexivity. lia.
    + rewrite Hstop in Hrun. rewrite Hrun in Hno. now elim Hno.
Qed.

Lemma fulfilled_run_witness :
  sendCommands samsung_tv reachable ["KEY_1"; "DELAY|250"; "KEY_2"] initial_world
  = (Fulfilled,
     snd (sendCommands samsung_tv reachable ["KEY_1"; "DELAY|250"; "KEY_2"]
            initial_world)) /\
  timers (added initial_world
            (snd (sendCommands samsung_tv reachable
                    ["KEY_1"; "DELAY|250"; "KEY_2"] initial_world)))
  = [Num 100; Num 250; Num 100].
Proof.
  split; [reflexivity|].
  exact (proj1 (proj2
    (fulfilled_run samsung_tv reachable ["KEY_1"; "DELAY|250"; "KEY_2"]
       initial_world _ eq_refl))).
Defined.

Lemma sendCommands_destinations (this : LIRCController)
    (net : network) (keys : list string) :
  forall w,
  Forall (fun hp => hp = (host this, port this))
         (destinations (added w (snd (sendCommands this net keys w)))).
Proof.
  assert (Hone : forall k w,
            Forall (fun hp => hp = (host this, port this))
                   (destinations (added w (snd (onFulfilled this net k w))))).
  { intros k w. destruct (JS.startsWith k DELAY_INDENTIFIER) eqn:Hp.
    - rewrite (onFulfilled_delay this net k w Hp). cbn [snd].
      rewrite delay_added. constructor.
    - rewrite (onFulfilled_send this net k w Hp). unfold send_result.
      destruct (net (sockets w)) as [latency [[after e]|]|latency e|];
        [destruct (Z.of_N after <? timer_ms (Num (delay this)))| | |];
        (erewrite added_app by (cbn [snd trace]; reflexivity));
        repeat constructor. }
  induction keys as [|k ks IH]; intros w.
  - rewrite sendCommands_nil. cbn [snd]. unfold added. rewrite skipn_all.
    constructor.
  - destruct (sendCommands_step this net k ks w)
      as [(w1 & Hk & Hgo & Hadd)|(Hno & Hstop)].
    + rewrite Hgo, Hadd, destinations_app. apply Forall_app. split.
      * specialize (Hone k w). now rewrite Hk in Hone.
      * apply IH.
    + rewrite Hstop. apply Hone.
Qed.

(** X5.  Every socket of a run, whatever its outcome, is opened to the
    configured host and port; and a socket is opened for each connection
    counted. *)
Theorem connections_go_to_configured_daemon (this : LIRCController)
    (net : network) (keys : list string) (w : world) :
  let w' := snd (sendCommands this net keys w) in
  Forall (fun hp => hp = (host this, port this)) (destinations (added w w')) /\
  List.length (destinations (added w w')) = (sockets w' - sockets w)%nat.
Proof.
  cbn zeta. split; [apply sendCommands_destinations|].
  destruct (sendCommands_extends this net keys w) as (rest & n & E & _).
  rewrite (added_app _ _ rest (ext_trace _ _ _ E)).
  assert (Hlen : List.length (destinations rest) = List.length (connections rest)).
  { clear. induction rest as [|[t e] rest IH]; cbn; [reflexivity|].
    destruct e; cbn; now rewrite ?IH. }
  rewrite Hlen, (ext_sockets _ _ _ E). apply length_seq.
Qed.

(** One token, from two states of the process with the same number of
    sockets opened: the same outcome, the same writes, the same sockets. *)
Lemma onFulfilled_sockets_only (this : LIRCController) (net : network)
    (key : string) (w v : world) :
  sockets w = sockets v ->
  fst (onFulfilled this net key w) = fst (onFulfilled this net key v) /\
  sockets (snd (onFulfilled this net key w))
  = sockets (snd (onFulfilled this net key v)) /\
  writes (added w (snd (onFulfilled this net key w)))
  = writes (added v (snd (onFulfilled this net key v))).
Proof.
  intros Hs. destruct (JS.startsWith key DELAY_INDENTIFIER) eqn:Hp.
  - rewrite !(onFulfilled_delay this net key _ Hp). cbn [fst snd].
    rewrite !delay_added. repeat split. exact Hs.
  - rewrite !(onFulfilled_send this net key _ Hp).
    rewrite !send_writes, !send_result_sockets, <- Hs.
    repeat split. unfold send_result. rewrite <- Hs.
    destruct (net (sockets w)) as [latency [[after e]|]|latency e|];
      [destruct (Z.of_N after <? timer_ms (Num (delay this)))| | |];
      reflexivity.
Qed.

(** X7.  [Delay] tokens change when things happen, not what happens.  A
    sequence and the same sequence without its [Delay] tokens, run from
    states of the process with the same number of sockets opened (whatever
    their clocks and traces), have the same outcome, write the same
    requests to the same sockets, and open the same number of sockets. *)
Theorem delays_change_only_time (this : LIRCController) (net : network)
    (keys : list string) :
  forall w v,
  sockets w = sockets v ->
  fst (sendCommands this net keys w) = fst (sendCommands this net (sends keys) v) /\
  sockets (snd (sendCommands this net keys w))
  = sockets (snd (sendCommands this net (sends keys) v)) /\
  writes (added w (snd (sendCommands this net keys w)))
  = writes (added v (snd (sendCommands this net (sends keys) v))).
Proof.
  induction keys as [|k ks IH]; intros w v Hs.
  - cbn [sends filter]. rewrite !sendCommands_nil. cbn [fst snd].
    unfold added. rewrite !skipn_all. repeat split. exact Hs.
  - rewrite sends_cons. destruct (JS.startsWith k DELAY_INDENTIFIER) eqn:Hp.
    + destruct (sendCommands_step this net k ks w)
        as [(w1 & Hk & Hgo & Hadd)|(Hno & _)].
      * rewrite Hgo, Hadd, writes_app.
        destruct (onFulfilled_fulfilled this net k w w1 Hk) as (_ & _ & _ & Hcase).
        rewrite Hp in Hcase. destruct Hcase as (-> & _ & Hs1 & _).
        apply IH. congruence.
      * rewrite (onFulfilled_delay this net k w Hp) in Hno. now elim Hno.
    + destruct (onFulfilled_sockets_only this net k w v Hs) as (Ho & Hsock & Hw).
      destruct (sendCommands_step this net k ks w)
        as [(w1 & Hk & Hgo & Hadd)|(Hno & Hstop)];
      destruct (sendCommands_step this net k (sends ks) v)
        as [(v1 & Hk' & Hgo' & Hadd')|(Hno' & Hstop')].
      * rewrite Hgo, Hgo', Hadd, Hadd', !writes_app.
        rewrite Hk, Hk' in Hsock, Hw. cbn [snd] in Hsock, Hw.
        destruct (IH w1 v1 Hsock) as (I1 & I2 & I3).
        rewrite Hw, I3. repeat split; assumption.
      * rewrite Hk in Ho. now rewrite <- Ho in Hno'.
      * rewrite Hk' in Ho. now rewrite Ho in Hno.
      * rewrite Hstop, Hstop'. repeat split; assumption.
Qed.

Lemma delays_change_only_time_witness :
  sockets initial_world = sockets initial_world /\
  fst (sendCommands samsung_tv third_refused
         ["A"; "DELAY|250"; "B"; "DELAY|abc"; "C"; "D"] initial_world)
  = fst (sendCommands samsung_tv third_refused ["A"; "B"; "C"; "D"] initial_world).
Proof.
  split; [reflexivity|].
  exact (proj1
    (delays_change_only_time samsung_tv third_refused
       ["A"; "DELAY|250"; "B"; "DELAY|abc"; "C"; "D"]
       initial_world initial_world eq_refl)).
Defined.

(** ** The handlers of the accessory *)

Lemma received_app (h h' : home) (rest : list (Z * hap_event)) :
  homekit h' = homekit h ++ rest -> received h h' = rest.
Proof.
  intros H. unfold received. rewrite H, skipn_app, skipn_all, Nat.sub_diag.
  reflexivity.
Qed.

(** The chain every handler builds: the run of the dispatcher, then the
    handler of its outcome. *)
Lemma chain_result (p : Promise) (f : home -> home) (g : Error -> home -> home)
    (h : home) :
  snd (catch_h (then_h (lift p) f) g h)
  = match fst (p (process h)) with
    | Fulfilled => f (mkHome (snd (p (process h))) (states h) (homekit h))
    | Rejected error => g error (mkHome (snd (p (process h))) (states h) (homekit h))
    | Pending => mkHome (snd (p (process h))) (states h) (homekit h)
    end.
Proof.
  unfold catch_h, then_h, lift.
  destruct (p (process h)) as [[|e|] w']; reflexivity.
Qed.

(** X8.  The contract of [setActive] in the later version.  The callback is
    called once when the run of the power list settles and never while it
    is pending: with no error when the run is fulfilled, with the error of
    the run when it is rejected.  [states.Active] takes the value only when
    the run is fulfilled, [UpdateActive] is sent only then, and everything
    HomeKit receives bears the time at which the run settled. *)
Theorem Television_setActive_contract (device : Device.t) (net : network)
    (value : JSValue) (h : home) :
  let keys := if truthy value then Device.powerOn device
              else Device.powerOff device in
  let r := sendCommands (controller_of device) net keys (process h) in
  let h' := Television.setActive device net value h in
  process h' = snd r /\
  callbacks (received h h')
  = match fst r with
    | Fulfilled => [(None, None)]
    | Rejected error => [(Some error, None)]
    | Pending => []
    end /\
  states h'
  = match fst r with
    | Fulfilled => mkStates value (ActiveIdentifier (states h))
    | _ => states h
    end /\
  (In (UpdateActive value) (map snd (received h h')) <-> fst r = Fulfilled) /\
  Forall (fun te => fst te = now (snd r)) (received h h').
Proof.
  cbn zeta. unfold Television.setActive. rewrite chain_result.
  destruct (sendCommands (controller_of device) net
              (if truthy value then Device.powerOn device
               else Device.powerOff device) (process h)) as [[|e|] w'];
    cbn [fst snd].
  - erewrite received_app
      by (unfold callback, notify, set_Active; cbn [homekit process states];
          rewrite <- !app_assoc; reflexivity).
    cbn. repeat split; auto.
  - erewrite received_app
      by (unfold Television.on_rejected, callback, notify;
          cbn [homekit process states]; rewrite <- !app_assoc; reflexivity).
    cbn. repeat split; auto; try discriminate.
    intros [H|[H|[]]]; discriminate H.
  - erewrite received_app by (cbn [homekit]; symmetry; apply app_nil_r).
    cbn. repeat split; auto; try discriminate.
    intros [].
Qed.

(** X9.  [getActive] after [setActive]: HomeKit is told the value it has
    set, as it was handed over, when the run was fulfilled, and the value
    of before when it was not.  [getActive] itself changes neither
    [this.states] nor the process. *)
Theorem Television_get_after_set (device : Device.t) (net : network)
    (value : JSValue) (h : home) :
  let keys := if truthy value then Device.powerOn device
              else Device.powerOff device in
  let r := sendCommands (controller_of device) net keys (process h) in
  let h1 := Television.setActive device net value h in
  let h2 := getActive h1 in
  callbacks (received h1 h2)
  = [(None, Some match fst r with
                 | Fulfilled => value
                 | _ => Active (states h)
                 end)] /\
  states h2 = states h1 /\
  process h2 = process h1.
Proof.
  cbn zeta. unfold getActive.
  erewrite received_app
    by (unfold callback, notify; cbn [homekit process states];
        rewrite <- !app_assoc; reflexivity).
  cbn [callbacks]. split; [|split; reflexivity].
  unfold Television.setActive. rewrite chain_result.
  destruct (sendCommands (controller_of device) net
              (if truthy value then Device.powerOn device
               else Device.powerOff device) (process h)) as [[|e|] w'];
    reflexivity.
Qed.

(** X10.  [setActive] of [src/platformAccessory.ts] answers before it acts.
    The callback is called with no error first, at the time the handler is
    called, and no event of the run is earlier.  When the run settles the
    callback is called a second time: with the error when the run was
    rejected, after HomeKit has been told of a success. *)
Theorem PlatformAccessory_setActive_answers_first (device : Device.t)
    (net : network) (value : JSValue) (h : home) :
  let keys := if truthy value then Device.powerOn device
              else Device.powerOff device in
  let r := sendCommands (controller_of device) net keys (process h) in
  let h' := PlatformAccessory.setActive device net value h in
  process h' = snd r /\
  (exists rest,
     received h h' = (now (process h), Callback None None) :: rest) /\
  callbacks (received h h')
  = (None, None)
    :: match fst r with
       | Fulfilled => [(None, None)]
       | Rejected error => [(Some error, None)]
       | Pending => []
       end /\
  Forall (fun te => now (process h) <= fst te) (added (process h) (process h')).
Proof.
  cbn zeta. unfold PlatformAccessory.setActive. rewrite chain_result.
  change (process (callback None None h)) with (process h).
  destruct (sendCommands_extends (controller_of device) net
              (if truthy value then Device.powerOn device
               else Device.powerOff device) (process h)) as (rest & n & E & _).
  destruct (sendCommands (controller_of device) net
              (if truthy value then Device.powerOn device
               else Device.powerOff device) (process h)) as [[|e|] w'];
    cbn [fst snd] in *;
    unfold callback, notify, set_Active; cbn [homekit process states];
    rewrite <- ?app_assoc;
    (erewrite received_app by reflexivity);
    (split; [reflexivity|]); (split; [eexists; reflexivity|]);
    (split; [reflexivity|]);
    rewrite (added_app _ _ rest (ext_trace _ _ _ E));
    apply (ext_times _ _ _ E).
Qed.

(** The process after a chain is the process after the run, whatever the
    handlers of the outcome tell HomeKit. *)
Lemma chain_process (p : Promise) (f : home -> home) (g : Error -> home -> home)
    (h : home) :
  (forall x, process (f x) = process x) ->
  (forall e x, process (g e x) = process x) ->
  process (snd (catch_h (then_h (lift p) f) g h)) = snd (p (process h)).
Proof.
  intros Hf Hg. rewrite chain_result.
  destruct (p (process h)) as [[|e|] w']; cbn [fst snd];
    rewrite ?Hf, ?Hg; reflexivity.
Qed.

Ltac settle_chain :=
  unfold Television.on_rejected, callback, notify, set_Active,
    set_ActiveIdentifier;
  cbn [homekit process states fst snd];
  rewrite <- ?app_assoc;
  first [erewrite received_app by reflexivity
        |erewrite received_app by (symmetry; apply app_nil_r)];
  cbn; repeat split; auto.

(** X11.  [setActiveIdentifier] and the index it is given.  With a list of
    inputs and a number that is an index into it, the handler runs the
    command of that input; the callback is called once when the run
    settles, with its error when it is rejected, and
    [states.ActiveIdentifier] takes the value only when the run is
    fulfilled.  With no list of inputs, a boolean, a negative number or a
    number past the end of the list, the handler throws before anything is
    sent and before the callback is called. *)
Theorem Television_setActiveIdentifier_index (device : Device.t)
    (net : network) (value : JSValue) (h : home) :
  (forall inputs z,
     Device.inputs device = Some inputs ->
     value = VNum z ->
     0 <= z < Z.of_nat (List.length inputs) ->
     exists input h',
       nth_error inputs (Z.to_nat z) = Some input /\
       Television.setActiveIdentifier device net value h = Returns h' /\
       let r := sendCommands (controller_of device) net (Input.command input)
                  (process h) in
       process h' = snd r /\
       callbacks (received h h')
       = match fst r with
         | Fulfilled => [(None, None)]
         | Rejected error => [(Some error, None)]
         | Pending => []
         end /\
       states h'
       = match fst r with
         | Fulfilled => mkStates (Active (states h)) value
         | _ => states h
         end) /\
  ((Device.inputs device = None \/
    (exists b, value = VBool b) \/
    (exists inputs z,
       Device.inputs device = Some inputs /\ value = VNum z /\
       (z < 0 \/ Z.of_nat (List.length inputs) <= z))) ->
   Television.setActiveIdentifier device net value h = ThrowsTypeError).
Proof.
  split.
  - intros inputs z Hin -> Hz.
    destruct (nth_error inputs (Z.to_nat z)) as [input|] eqn:Hnth.
    2:{ apply nth_error_None in Hnth. lia. }
    assert (Hat : Television.input_at device (VNum z) = Some input).
    { unfold Television.input_at. rewrite Hin.
      destruct (0 <=? z) eqn:H0; [exact Hnth|apply Z.leb_gt in H0; lia]. }
    exists input. eexists. split; [reflexivity|].
    unfold Television.setActiveIdentifier. rewrite Hat.
    split; [reflexivity|]. cbn zeta. rewrite chain_result.
    destruct (sendCommands (controller_of device) net (Input.command input)
                (process h)) as [[|e|] w']; settle_chain.
  - intros Hbad. unfold Television.setActiveIdentifier, Television.input_at.
    destruct Hbad as [->|[[b ->]|(inputs & z & -> & -> & Hz)]].
    + reflexivity.
    + destruct (Device.inputs device); reflexivity.
    + destruct (0 <=? z) eqn:H0; [|reflexivity].
      apply Z.leb_le in H0.
      assert (Hnth : nth_error inputs (Z.to_nat z) = None)
        by (apply nth_error_None; lia).
      now rewrite Hnth.
Qed.

Lemma find_snoc {A : Type} (p : A -> bool) (l : list A) (a : A) :
  find p (l ++ [a])
  = match find p l with
    | Some x => Some x
    | None => if p a then Some a else None
    end.
Proof.
  induction l as [|x l IH]; cbn; [reflexivity|].
  destruct (p x); [reflexivity|exact IH].
Qed.

(** Reading the object filled by [forEach]: the last entry of a type
    wins. *)
Lemma obj_get_mapped (remoteKeys : list RemoteKey.t) (k : Z) :
  forall m : JSObject,
  obj_get (fold_left (fun m remoteKey =>
                        obj_set m (RemoteKey.type remoteKey)
                          (RemoteKey.command remoteKey)) remoteKeys m) k
  = match find (fun rk => RemoteKey.type rk =? k) (rev remoteKeys) with
    | Some rk => Some (RemoteKey.command rk)
    | None => obj_get m k
    end.
Proof.
  induction remoteKeys as [|rk rks IH]; intros m; cbn [fold_left rev].
  - reflexivity.
  - rewrite IH, find_snoc.
    destruct (find (fun rk0 => RemoteKey.type rk0 =? k) (rev rks));
      [reflexivity|].
    unfold obj_set; cbn [obj_get].
    destruct (RemoteKey.type rk =? k); reflexivity.
Qed.

(** X12.  The remote keys.  A key is served by the command of the last
    entry of [remoteKeys] that has its type: the handler runs that command
    and calls the callback once when the run settles, with its error when
    it is rejected.  A key with no entry, or a value that is no number, is
    answered at once with the error "This RemoteKey has not been
    configured", and nothing is sent.  [this.states] is left as it is. *)
Theorem Television_remote_key (device : Device.t) (net : network)
    (remoteKeys : list RemoteKey.t) (value : JSValue) (h : home) :
  let found := match key_of value with
               | Some k => find (fun rk => RemoteKey.type rk =? k) (rev remoteKeys)
               | None => None
               end in
  let h' := Television.onRemoteKey device net remoteKeys value h in
  states h' = states h /\
  match found with
  | Some rk =>
      let r := sendCommands (controller_of device) net (RemoteKey.command rk)
                 (process h) in
      process h' = snd r /\
      callbacks (received h h')
      = match fst r with
        | Fulfilled => [(None, None)]
        | Rejected error => [(Some error, None)]
        | Pending => []
        end
  | None =>
      process h' = process h /\
      received h h'
      = [(now (process h),
          Callback
            (Some (mkError ("This RemoteKey has not been configured: "
                              ++ toString value)%string ""))
            None)]
  end.
Proof.
  cbn zeta. unfold Television.onRemoteKey, Television.mappedRemoteKeys.
  destruct (key_of value) as [k|].
  - rewrite obj_get_mapped. cbn [obj_get].
    destruct (find (fun rk => RemoteKey.type rk =? k) (rev remoteKeys)) as [rk|].
    + rewrite chain_result.
      destruct (sendCommands (controller_of device) net (RemoteKey.command rk)
                  (process h)) as [[|e|] w']; settle_chain.
    + settle_chain.
  - settle_chain.
Qed.

(** X13.  The speaker.  When the condition under which the constructor
    registers [setMute] and [setVolume] holds, neither handler throws:
    [setMute] runs [muteOn] for a truthy value and [muteOff] otherwise,
    [setVolume] runs [volumeDown] for a truthy value and [volumeUp]
    otherwise; each calls the callback once when its run settles, with its
    error when it is rejected, and leaves [this.states] as it is.  When
    the list a handler picks is missing, the handler throws. *)
Theorem Television_speaker (device : Device.t) (net : network)
    (value : JSValue) (h : home) :
  (Television.speaker_registered device = true ->
   exists mute volume hm hv,
     (if truthy value then Device.muteOn device else Device.muteOff device)
     = Some mute /\
     (if truthy value then Device.volumeDown device else Device.volumeUp device)
     = Some volume /\
     Television.setMute device net value h = Returns hm /\
     Television.setVolume device net value h = Returns hv /\
     let rm := sendCommands (controller_of device) net mute (process h) in
     let rv := sendCommands (controller_of device) net volume (process h) in
     process hm = snd rm /\ states hm = states h /\
     callbacks (received h hm)
     = match fst rm with
       | Fulfilled => [(None, None)]
       | Rejected error => [(Some error, None)]
       | Pending => []
       end /\
     process hv = snd rv /\ states hv = states h /\
     callbacks (received h hv)
     = match fst rv with
       | Fulfilled => [(None, None)]
       | Rejected error => [(Some error, None)]
       | Pending => []
       end) /\
  ((if truthy value then Device.muteOn device else Device.muteOff device) = None ->
   Television.setMute device net value h = ThrowsTypeError) /\
  ((if truthy value then Device.volumeDown device else Device.volumeUp device) = None ->
   Television.setVolume device net value h = ThrowsTypeError).
Proof.
  split; [|split].
  - unfold Television.speaker_registered, Television.setMute,
      Television.setVolume, Television.run_optional.
    destruct (Device.muteOn device) as [on|]; [|discriminate].
    destruct (Device.muteOff device) as [off|]; [|discriminate].
    destruct (Device.volumeUp device) as [up|]; [|discriminate].
    destruct (Device.volumeDown device) as [down|]; [|discriminate].
    intros _.
    exists (if truthy value then on else off),
           (if truthy value then down else up).
    destruct (truthy value); do 2 eexists;
      (split; [reflexivity|]); (split; [reflexivity|]);
      (split; [reflexivity|]); (split; [reflexivity|]);
      cbn zeta; rewrite !chain_result.
    + destruct (sendCommands (controller_of device) net on (process h))
        as [[|e|] w'];
      destruct (sendCommands (controller_of device) net down (process h))
        as [[|e'|] w'']; settle_chain; settle_chain.
    + destruct (sendCommands (controller_of device) net off (process h))
        as [[|e|] w'];
      destruct (sendCommands (controller_of device) net up (process h))
        as [[|e'|] w'']; settle_chain; settle_chain.
  - unfold Television.setMute, Television.run_optional. now intros ->.
  - unfold Television.setVolume, Television.run_optional. now intros ->.
Qed.

(** X14.  The defaults of the constructor.  The controller is built with
    port 8765 when the configured port is missing, [NaN] or 0, and with the
    configured port otherwise, so never with port 0; with a delay of 0 when
    the configured delay is missing or [NaN], and with the configured delay
    otherwise.  Every socket [setActive] opens goes to the configured host
    and to that port. *)
Theorem controller_defaults (device : Device.t) (net : network)
    (value : JSValue) (h : home) :
  port (controller_of device) <> 0 /\
  ((Device.port device = None \/ Device.port device = Some NaN \/
    Device.port device = Some (Num 0)) ->
   port (controller_of device) = 8765) /\
  (forall z, Device.port device = Some (Num z) -> z <> 0 ->
     port (controller_of device) = z) /\
  ((Device.delay device = None \/ Device.delay device = Some NaN) ->
   delay (controller_of device) = 0) /\
  (forall z, Device.delay device = Some (Num z) ->
     delay (controller_of device) = z) /\
  host (controller_of device) = Device.host device /\
  remote (controller_of device) = Device.remote device /\
  Forall (fun hp => hp = (Device.host device, port (controller_of device)))
         (destinations
            (added (process h)
               (process (Television.setActive device net value h)))).
Proof.
  unfold controller_of at 1 2 3 4 5 6 7. cbn [port delay host remote].
  unfold or_default.
  repeat split.
  - destruct (Device.port device) as [[|z]|]; try discriminate.
    destruct (z =? 0) eqn:Hz; [discriminate|].
    apply Z.eqb_neq in Hz. exact Hz.
  - intros [->|[->| ->]]; reflexivity.
  - intros z -> Hz. apply Z.eqb_neq in Hz. now rewrite Hz.
  - intros [->| ->]; reflexivity.
  - intros z ->. destruct (z =? 0) eqn:Hz; [|reflexivity].
    apply Z.eqb_eq in Hz. now subst.
  - unfold Television.setActive. rewrite chain_process.
    + apply (sendCommands_destinations (controller_of device)).
    + reflexivity.
    + reflexivity.
Qed.

(** ** Examples of the accessory *)

(** Key 4 has two entries: the later one is sent. *)
Example remote_key_last_entry :
  match Device.remoteKeys living_room with
  | Some remoteKeys =>
      writes (trace (process (Television.onRemoteKey living_room reachable
                                remoteKeys (VNum 4) initial_home)))
  | None => []
  end
  = [(0%nat, ("SEND_ONCE samsung KEY_CHANNELUP" ++ CRLF)%string)].
Proof. reflexivity. Qed.

Example remote_key_unconfigured :
  match Device.remoteKeys living_room with
  | Some remoteKeys =>
      homekit (Television.onRemoteKey living_room reachable remoteKeys
                 (VNum 7) initial_home)
  | None => []
  end
  = [(0, Callback
           (Some (mkError "This RemoteKey has not been configured: 7" ""))
           None)].
Proof. reflexivity. Qed.

(** The earlier [setActive] against a daemon that refuses: success first,
    the error after. *)
Example answers_first_then_fails :
  callbacks (homekit (PlatformAccessory.setActive living_room unreachable
                        (VNum 1) initial_home))
  = [(None, None); (Some ECONNREFUSED, None)].
Proof. reflexivity. Qed.

Example input_past_the_end :
  Television.setActiveIdentifier living_room reachable (VNum 2) initial_home
  = ThrowsTypeError.
Proof. reflexivity. Qed.

Example get_after_failed_set :
  callbacks (homekit (getActive (Television.setActive living_room unreachable
                                   (VNum 1) initial_home)))
  = [(Some ECONNREFUSED, None); (None, Some (VBool false))].
Proof. reflexivity. Qed.
